(** * Interval and credentialsCache: a shallow embedding

    Two Go components are embedded here and verified:

    - [Interval] (package [interval]): a resettable, jitterable periodic
      trigger driven by one background goroutine ([run]) and a [select]
      loop;
    - [credentialsCache] (package [externalcloudaudit]): a cache of
      short-lived AWS credentials refreshed by a background loop.

    Sequential code is written in a state-and-panic monad.  Goroutines,
    channels and [select] are given a small-step semantics: an [Event] is
    one scheduling decision (which goroutine moves and which ready [select]
    case it takes), [step] executes it, and [exec] runs a schedule. *)

From Stdlib Require Import ZArith List String Bool Lia.
Import ListNotations.
Open Scope Z_scope.

(** ** Go values shared by both packages *)

(** [time.Duration] is a count of nanoseconds.  [time.Time] is modelled as
    an instant on the same nanosecond scale; [Add], [Sub] and [Before] are
    the arithmetic on instants. *)
Definition time_Duration := Z.
Definition time_Time := Z.

Definition Nanosecond : time_Duration := 1.
Definition Microsecond : time_Duration := 1000 * Nanosecond.
Definition Millisecond : time_Duration := 1000 * Microsecond.
Definition Second : time_Duration := 1000 * Millisecond.
Definition Minute : time_Duration := 60 * Second.
Definition Hour : time_Duration := 60 * Minute.

Definition Time_Add (t : time_Time) (d : time_Duration) : time_Time := t + d.
Definition Time_Sub (t u : time_Time) : time_Duration := t - u.
Definition Time_Before (t u : time_Time) : bool := t <? u.

(** [Duration.Round]: to the nearest multiple of [m], halves away from
    zero. *)
Definition Duration_Round (d m : time_Duration) : time_Duration :=
  if m <=? 0 then d
  else
    let r := Z.rem d m in
    if d <? 0 then
      if - r + - r <? m then d + - r else d - m + - r
    else
      if r + r <? m then d - r else d + m - r.

(** Modelled from the spec: Go's [error] values and [trace.Wrap] come from
    libraries outside this repository; the spec only speaks of "the
    failure".  [errors.New] builds an error from a message, and
    [trace.Wrap] decorates a non-nil error with a stack trace unless it
    already carries one; it maps [nil] to [nil]. *)
Inductive error : Type :=
| errorsNew (msg : string)
| traceError (inner : error).

Definition traceWrap (e : option error) : option error :=
  match e with
  | None => None
  | Some (traceError inner) => Some (traceError inner)
  | Some other => Some (traceError other)
  end.

Definition isNil {A : Type} (x : option A) : bool :=
  match x with None => true | Some _ => false end.

(** Outcome of running a piece of Go code: it returns, it panics, or it
    blocks for ever on a channel operation. *)
Inductive Result (A : Type) : Type :=
| Ok (a : A)
| Panic (msg : string)
| Blocked.
Arguments Ok {A} a.
Arguments Panic {A} msg.
Arguments Blocked {A}.

(** A [chan struct{}] that is only ever closed (never sent on): a one-shot
    signal.  Closing a closed channel panics. *)
Record SignalChan : Type := { sigClosed : bool }.

Definition makeSignal : SignalChan := {| sigClosed := false |}.

Definition closeSignal (c : SignalChan) : Result SignalChan :=
  if sigClosed c then Panic "close of closed channel"
  else Ok {| sigClosed := true |}.

(** A receive from a signal channel is ready exactly when it is closed. *)
Definition recvReady (c : SignalChan) : bool := sigClosed c.

(** ** Package externalcloudaudit: the credentials cache *)

Module ExternalCloudAudit.

(** Modelled from the spec: [aws.Credentials] and its [HasKeys] method
    belong to the AWS SDK, not to this repository: "the credential tuple
    (accessKey, secret, sessionToken, expiry)", which is "non-empty" when it
    has keys.  [HasKeys] is the SDK's: both key strings are non-empty. *)
Record Credentials : Type := {
  AccessKeyID : string;
  SecretAccessKey : string;
  SessionToken : string;
  Source : string;
  CanExpire : bool;
  Expires : time_Time
}.

Definition zeroCredentials : Credentials :=
  {| AccessKeyID := EmptyString; SecretAccessKey := EmptyString;
     SessionToken := EmptyString; Source := EmptyString;
     CanExpire := false; Expires := 0 |}.

Definition HasKeys (c : Credentials) : bool :=
  (0 <? String.length (AccessKeyID c))%nat
  && (0 <? String.length (SecretAccessKey c))%nat.

Definition TokenLifetime : time_Duration := Hour.
Definition refreshBeforeExpirationPeriod : time_Duration := 15 * Minute.
Definition refreshCheckInterval : time_Duration := 30 * Second.
Definition retrieveTimeout : time_Duration := 30 * Second.

(** [GenerateOIDCTokenFn]: a token source is given by the outcome of its
    n-th invocation. *)
Definition GenerateOIDCTokenFn := nat -> string * option error.

(** Modelled from the spec: the STS client and the role provider built on
    it are the "Issuer capability", "implemented externally via an
    identity-token exchange against a cloud STS-like endpoint, bounded by
    the caller-supplied timeout".  A client is given by the outcome of the
    n-th exchange of an identity token for credentials of a role, asked for
    a session of the given duration under the given timeout. *)
Definition STSClient :=
  nat -> string -> string -> time_Duration -> time_Duration ->
  Credentials * option error.

(** Modelled from the spec: the "Clock capability" "provides Now()"; a
    clock is given by its n-th reading, so that successive calls of [Now]
    in one poll may see different times. *)
Definition Clock := nat -> time_Time.

Record credsOrErr : Type := {
  creds : Credentials;
  err : option error
}.

Inductive LogEntry : Type :=
| LogContextCanceledBeforeInitialized
| LogContextCanceledStoppingRefreshLoop
| LogRefreshingCredentials
| LogFailedToRetrieveNewCredentials (e : error)
| LogUsingExistingCredentialsExpiringIn (d : time_Duration)
| LogSuccessfullyRefreshed (expiry : time_Time).

Record credentialsCache : Type := {
  roleARN : string;
  generateOIDCTokenFn : option GenerateOIDCTokenFn;
  initialized : SignalChan;
  closeInitializedDone : bool;
  gotFirstCredsOrErr : SignalChan;
  closeGotFirstCredsOrErrDone : bool;
  cached : credsOrErr;
  stsClient : STSClient;
  clock : Clock
}.

(** What a method of the cache can touch: the cache itself and the outside
    world (how often the clock, the token source and STS were consulted, and
    the log). *)
Record St : Type := {
  cc : credentialsCache;
  clockReads : nat;
  oidcCalls : nat;
  stsCalls : nat;
  logged : list LogEntry
}.

Definition M (A : Type) : Type := St -> Result (A * St).

Definition ret {A : Type} (a : A) : M A := fun s => Ok (a, s).

Definition bind {A B : Type} (m : M A) (k : A -> M B) : M B :=
  fun s =>
    match m s with
    | Ok (a, s') => k a s'
    | Panic msg => Panic msg
    | Blocked => Blocked
    end.

Declare Scope go_scope.
Delimit Scope go_scope with go.
Notation "x <- m ;; k" := (bind m (fun x => k))
  (at level 61, m at next level, right associativity) : go_scope.
Notation "m ;; k" := (bind m (fun _ => k))
  (at level 61, right associativity) : go_scope.
Open Scope go_scope.

Definition getCache : M credentialsCache := fun s => Ok (cc s, s).

Definition putCache (c : credentialsCache) : M unit :=
  fun s => Ok (tt, {| cc := c; clockReads := clockReads s;
                      oidcCalls := oidcCalls s; stsCalls := stsCalls s;
                      logged := logged s |}).

Definition panic {A : Type} (msg : string) : M A := fun _ => Panic msg.

Definition logf (e : LogEntry) : M unit :=
  fun s => Ok (tt, {| cc := cc s; clockReads := clockReads s;
                      oidcCalls := oidcCalls s; stsCalls := stsCalls s;
                      logged := logged s ++ [e] |}).

(** [cc.clock.Now()] *)
Definition clockNow : M time_Time :=
  fun s => Ok (clock (cc s) (clockReads s),
               {| cc := cc s; clockReads := S (clockReads s);
                  oidcCalls := oidcCalls s; stsCalls := stsCalls s;
                  logged := logged s |}).

(** [cc.generateOIDCTokenFn(ctx)]; calling a nil function value panics. *)
Definition callGenerateOIDCTokenFn : M (string * option error) :=
  fun s =>
    match generateOIDCTokenFn (cc s) with
    | None => Panic "invalid memory address or nil pointer dereference"
    | Some fn =>
        Ok (fn (oidcCalls s),
            {| cc := cc s; clockReads := clockReads s;
               oidcCalls := S (oidcCalls s); stsCalls := stsCalls s;
               logged := logged s |})
    end.

(** [roleProvider.Retrieve(ctx)] for the provider built in [refresh]. *)
Definition roleProviderRetrieve (token : string) : M (Credentials * option error) :=
  fun s =>
    Ok (stsClient (cc s) (stsCalls s) (roleARN (cc s)) token
          TokenLifetime retrieveTimeout,
        {| cc := cc s; clockReads := clockReads s;
           oidcCalls := oidcCalls s; stsCalls := S (stsCalls s);
           logged := logged s |}).

(** [sync.OnceFunc(func() { close(ch) })] for the two latches. *)
Definition closeInitialized : M unit :=
  c <- getCache ;;
  if closeInitializedDone c then ret tt
  else
    match closeSignal (initialized c) with
    | Ok ch =>
        putCache {| roleARN := roleARN c;
                    generateOIDCTokenFn := generateOIDCTokenFn c;
                    initialized := ch;
                    closeInitializedDone := true;
                    gotFirstCredsOrErr := gotFirstCredsOrErr c;
                    closeGotFirstCredsOrErrDone := closeGotFirstCredsOrErrDone c;
                    cached := cached c;
                    stsClient := stsClient c;
                    clock := clock c |}
    | Panic msg => panic msg
    | Blocked => fun _ => Blocked
    end.

Definition closeGotFirstCredsOrErr : M unit :=
  c <- getCache ;;
  if closeGotFirstCredsOrErrDone c then ret tt
  else
    match closeSignal (gotFirstCredsOrErr c) with
    | Ok ch =>
        putCache {| roleARN := roleARN c;
                    generateOIDCTokenFn := generateOIDCTokenFn c;
                    initialized := initialized c;
                    closeInitializedDone := closeInitializedDone c;
                    gotFirstCredsOrErr := ch;
                    closeGotFirstCredsOrErrDone := true;
                    cached := cached c;
                    stsClient := stsClient c;
                    clock := clock c |}
    | Panic msg => panic msg
    | Blocked => fun _ => Blocked
    end.

Definition notYetInitialized : error :=
  errorsNew "ExternalCloudAudit: credential cache not yet initialized".

Definition newCredentialsCache (region roleARN' : string)
    (optClock : Clock) (optSTS : STSClient) : credentialsCache :=
  {| roleARN := roleARN';
     generateOIDCTokenFn := None;
     initialized := makeSignal;
     closeInitializedDone := false;
     gotFirstCredsOrErr := makeSignal;
     closeGotFirstCredsOrErrDone := false;
     cached := {| creds := zeroCredentials; err := Some notYetInitialized |};
     stsClient := optSTS;
     clock := optClock |}.

Definition setGenerateOIDCTokenFn (fn : option GenerateOIDCTokenFn) : M unit :=
  c <- getCache ;;
  putCache {| roleARN := roleARN c;
              generateOIDCTokenFn := fn;
              initialized := initialized c;
              closeInitializedDone := closeInitializedDone c;
              gotFirstCredsOrErr := gotFirstCredsOrErr c;
              closeGotFirstCredsOrErrDone := closeGotFirstCredsOrErrDone c;
              cached := cached c;
              stsClient := stsClient c;
              clock := clock c |} ;;
  closeInitialized.

Definition Retrieve : M (Credentials * option error) :=
  c <- getCache ;;
  ret (creds (cached c), err (cached c)).

Definition setCredsOrErr (coe : credsOrErr) : M unit :=
  c <- getCache ;;
  putCache {| roleARN := roleARN c;
              generateOIDCTokenFn := generateOIDCTokenFn c;
              initialized := initialized c;
              closeInitializedDone := closeInitializedDone c;
              gotFirstCredsOrErr := gotFirstCredsOrErr c;
              closeGotFirstCredsOrErrDone := closeGotFirstCredsOrErrDone c;
              cached := coe;
              stsClient := stsClient c;
              clock := clock c |} ;;
  closeGotFirstCredsOrErr.

Definition refresh : M (Credentials * option error) :=
  r <- callGenerateOIDCTokenFn ;;
  match snd r with
  | Some e => ret (zeroCredentials, traceWrap (Some e))
  | None =>
      p <- roleProviderRetrieve (fst r) ;;
      ret (fst p, traceWrap (snd p))
  end.

Definition refreshIfNeeded : M unit :=
  r <- Retrieve ;;
  let credsFromCache := fst r in
  fresh <- (if isNil (snd r) && HasKeys credsFromCache
            then now <- clockNow ;;
                 ret (Time_Before (Time_Add now refreshBeforeExpirationPeriod)
                                  (Expires credsFromCache))
            else ret false) ;;
  if fresh then ret tt
  else
    logf LogRefreshingCredentials ;;
    p <- refresh ;;
    match snd p with
    | Some e =>
        valid <- (if HasKeys credsFromCache
                  then now <- clockNow ;;
                       ret (Time_Before now (Expires credsFromCache))
                  else ret false) ;;
        if valid then
          logf (LogFailedToRetrieveNewCredentials e) ;;
          now <- clockNow ;;
          logf (LogUsingExistingCredentialsExpiringIn
                  (Duration_Round (Time_Sub (Expires credsFromCache) now)
                                  Second))
        else
          setCredsOrErr {| creds := zeroCredentials; err := traceWrap (Some e) |}
    | None =>
        setCredsOrErr {| creds := fst p; err := None |} ;;
        logf (LogSuccessfullyRefreshed (Expires (fst p)))
    end.

(** [waitForFirstCredsOrErr]: a [select] over two receives; it can return
    exactly when one of them is ready, and blocks otherwise. *)
Definition waitForFirstCredsOrErr (ctxDone : SignalChan) : M unit :=
  c <- getCache ;;
  if recvReady ctxDone || recvReady (gotFirstCredsOrErr c) then ret tt
  else fun _ => Blocked.

(** *** The background goroutine [run] and its environment

    [run] first waits for [initialized] or cancellation, refreshes once, and
    then polls on every tick of a ticker until the context is cancelled.  A
    [RunChoice] names the [select] case the goroutine takes next. *)
Inductive LoopState : Type :=
| AwaitInitialized
| Polling
| Returned.

Inductive RunChoice : Type :=
| TakeInitialized
| TakeTick
| TakeDone.

Definition run (choice : RunChoice) (ctxDone : SignalChan) (l : LoopState)
  : M LoopState :=
  match l, choice with
  | AwaitInitialized, TakeInitialized =>
      c <- getCache ;;
      if recvReady (initialized c)
      then refreshIfNeeded ;; ret Polling
      else fun _ => Blocked
  | AwaitInitialized, TakeDone =>
      if recvReady ctxDone
      then logf LogContextCanceledBeforeInitialized ;; ret Returned
      else fun _ => Blocked
  | Polling, TakeTick =>
      refreshIfNeeded ;; ret Polling
  | Polling, TakeDone =>
      if recvReady ctxDone
      then logf LogContextCanceledStoppingRefreshLoop ;; ret Returned
      else fun _ => Blocked
  | _, _ => fun _ => Blocked
  end.

(** The cache together with its goroutine and the owning context. *)
Record System : Type := {
  st : St;
  ctx : SignalChan;
  loop : LoopState
}.

Inductive Event : Type :=
| EvSetGenerateOIDCTokenFn (fn : option GenerateOIDCTokenFn)
| EvCancel
| EvRun (choice : RunChoice).

Definition step (ev : Event) (sys : System) : Result System :=
  match ev with
  | EvSetGenerateOIDCTokenFn fn =>
      match setGenerateOIDCTokenFn fn (st sys) with
      | Ok (_, s') => Ok {| st := s'; ctx := ctx sys; loop := loop sys |}
      | Panic msg => Panic msg
      | Blocked => Blocked
      end
  | EvCancel =>
      (* cancelling a context is idempotent *)
      Ok {| st := st sys; ctx := {| sigClosed := true |}; loop := loop sys |}
  | EvRun choice =>
      match run choice (ctx sys) (loop sys) (st sys) with
      | Ok (l', s') => Ok {| st := s'; ctx := ctx sys; loop := l' |}
      | Panic msg => Panic msg
      | Blocked => Blocked
      end
  end.

Fixpoint exec (evs : list Event) (sys : System) : Result System :=
  match evs with
  | [] => Ok sys
  | ev :: rest =>
      match step ev sys with
      | Ok sys' => exec rest sys'
      | Panic msg => Panic msg
      | Blocked => Blocked
      end
  end.

(** [newConfigurator]: build the cache and start [run] with the context. *)
Definition newSystem (region roleARN' : string) (optClock : Clock)
    (optSTS : STSClient) : System :=
  {| st := {| cc := newCredentialsCache region roleARN' optClock optSTS;
              clockReads := 0; oidcCalls := 0; stsCalls := 0; logged := [] |};
     ctx := makeSignal;
     loop := AwaitInitialized |}.

Definition Reachable (sys : System) : Prop :=
  exists region roleARN' optClock optSTS evs,
    exec evs (newSystem region roleARN' optClock optSTS) = Ok sys.

Definition isFirstPoll (ev : Event) : bool :=
  match ev with EvRun TakeInitialized => true | _ => false end.

(** Properties of a state that the proofs carry along every schedule. *)
Definition latchesConsistent (c : credentialsCache) : Prop :=
  closeInitializedDone c = sigClosed (initialized c)
  /\ closeGotFirstCredsOrErrDone c = sigClosed (gotFirstCredsOrErr c).

Definition eitherCredsOrErr (c : credentialsCache) : Prop :=
  err (cached c) <> None -> creds (cached c) = zeroCredentials.

Definition untouchedUntilFirstResult (c : credentialsCache) : Prop :=
  sigClosed (gotFirstCredsOrErr c) = false ->
  cached c = {| creds := zeroCredentials; err := Some notYetInitialized |}.

Definition wellFormed (c : credentialsCache) : Prop :=
  latchesConsistent c /\ eitherCredsOrErr c /\ untouchedUntilFirstResult c.

Definition loopConsistent (sys : System) : Prop :=
  match loop sys with
  | AwaitInitialized => sigClosed (gotFirstCredsOrErr (cc (st sys))) = false
  | Polling =>
      sigClosed (gotFirstCredsOrErr (cc (st sys))) = true
      /\ sigClosed (initialized (cc (st sys))) = true
  | Returned =>
      sigClosed (gotFirstCredsOrErr (cc (st sys))) = true ->
      sigClosed (initialized (cc (st sys))) = true
  end.

(** The decision a poll takes on the cached result, as [refreshIfNeeded]
    computes it: the result is fresh when it holds a nil error and keys and
    expires after the clock reading plus the safety margin. *)
Definition cachedIsFresh (s : St) : bool :=
  isNil (err (cached (cc s))) && HasKeys (creds (cached (cc s)))
  && Time_Before (Time_Add (clock (cc s) (clockReads s))
                           refreshBeforeExpirationPeriod)
                 (Expires (creds (cached (cc s)))).

(** The index of the clock reading that the validity check after a failed
    refresh takes: one past the current one when the freshness check read
    the clock. *)
Definition validityCheckReading (s : St) : nat :=
  if isNil (err (cached (cc s))) && HasKeys (creds (cached (cc s)))
  then S (clockReads s) else clockReads s.

(** The cache after [setCredsOrErr coe] has published a result. *)
Definition published (c : credentialsCache) (coe : credsOrErr) : credentialsCache :=
  {| roleARN := roleARN c;
     generateOIDCTokenFn := generateOIDCTokenFn c;
     initialized := initialized c;
     closeInitializedDone := closeInitializedDone c;
     gotFirstCredsOrErr := {| sigClosed := true |};
     closeGotFirstCredsOrErrDone := true;
     cached := coe;
     stsClient := stsClient c;
     clock := clock c |}.

Definition SysInv (sys : System) : Prop :=
  wellFormed (cc (st sys))
  /\ loopConsistent sys
  /\ (sigClosed (gotFirstCredsOrErr (cc (st sys))) = true ->
      sigClosed (initialized (cc (st sys))) = true).

(** The property "after a successful refresh the stored credentials expire
    strictly after the clock's time at that moment", on the polls of a
    running cache. *)
Definition StoredExpiryInFuture : Prop :=
  forall sys c0 s1 s',
    Reachable sys ->
    cachedIsFresh (st sys) = false ->
    refresh (st sys) = Ok ((c0, None), s1) ->
    refreshIfNeeded (st sys) = Ok (tt, s') ->
    cached (cc s') = {| creds := c0; err := None |}
    /\ clock (cc s') (clockReads s') < Expires (creds (cached (cc s'))).

(** Sample inputs used to exercise the definitions. *)
Definition sampleCreds (expiry : time_Time) : Credentials :=
  {| AccessKeyID := "AKIA"; SecretAccessKey := "secret"; SessionToken := "token";
     Source := "WebIdentityCredentials"; CanExpire := true; Expires := expiry |}.

Definition tokenOk : GenerateOIDCTokenFn := fun _ => ("jwt"%string, None).
Definition tokenFails : GenerateOIDCTokenFn :=
  fun _ => (EmptyString, Some (errorsNew "auth unavailable")).

Definition stsIssues (expiry : time_Time) : STSClient :=
  fun _ _ _ _ _ => (sampleCreds expiry, None).
Definition stsFails : STSClient :=
  fun _ _ _ _ _ => (zeroCredentials, Some (errorsNew "sts unavailable")).

Definition clockAt (t : time_Time) : Clock := fun _ => t.

Definition sampleState (fn : option GenerateOIDCTokenFn) (held : credsOrErr)
    (latch : bool) (now : time_Time) (sts : STSClient) : St :=
  {| cc := {| roleARN := "arn:aws:iam::123456789012:role/audit";
              generateOIDCTokenFn := fn;
              initialized := {| sigClosed := true |};
              closeInitializedDone := true;
              gotFirstCredsOrErr := {| sigClosed := latch |};
              closeGotFirstCredsOrErrDone := latch;
              cached := held;
              stsClient := sts;
              clock := clockAt now |};
     clockReads := 0; oidcCalls := 0; stsCalls := 0; logged := [] |}.

(** *** The v1 adapter *)

(** Modelled from the spec: [credentials.Value] of the AWS SDK for Go v1,
    the v1 form of "the credential tuple": keys, session token and the
    name of the provider. *)
Module credentials.
Record Value : Type := {
  AccessKeyID : string;
  SecretAccessKey : string;
  SessionToken : string;
  ProviderName : string
}.
End credentials.

Definition zeroValue : credentials.Value :=
  {| credentials.AccessKeyID := EmptyString;
     credentials.SecretAccessKey := EmptyString;
     credentials.SessionToken := EmptyString;
     credentials.ProviderName := EmptyString |}.

Definition nilDereference : string :=
  "invalid memory address or nil pointer dereference".

(** A [*credentialsCache] is nil or points to the cache with its goroutine
    and context.  A method called on a nil pointer panics as soon as it
    touches a field. *)
Record v1Adapter : Type := { adapterCC : option System }.

Definition v1Adapter_RetrieveWithContext (a : v1Adapter)
  : Result (credentials.Value * option error) :=
  match adapterCC a with
  | None => Panic nilDereference
  | Some sys =>
      match Retrieve (st sys) with
      | Ok (credsV2, err', _) =>
          match err' with
          | Some e => Ok (zeroValue, traceWrap (Some e))
          | None =>
              Ok ({| credentials.AccessKeyID := AccessKeyID credsV2;
                     credentials.SecretAccessKey := SecretAccessKey credsV2;
                     credentials.SessionToken := SessionToken credsV2;
                     credentials.ProviderName := Source credsV2 |}, None)
          end
      | Panic msg => Panic msg
      | Blocked => Blocked
      end
  end.

Definition v1Adapter_Retrieve (a : v1Adapter)
  : Result (credentials.Value * option error) :=
  v1Adapter_RetrieveWithContext a.

Definition v1Adapter_IsExpired (a : v1Adapter) : bool := true.

(** *** The Configurator *)

(** The two fields of [ExternalCloudAuditSpec] that this package reads, and
    the resource that carries the spec. *)
Record ExternalCloudAuditSpec : Type := {
  IntegrationName : string;
  Region : string
}.

Record ExternalCloudAudit : Type := { Spec : ExternalCloudAuditSpec }.

(** An integration, seen through [GetAWSOIDCIntegrationSpec], which is nil
    for an integration of another kind. *)
Record AWSOIDCIntegrationSpecV1 : Type := { RoleARN : string }.
Record Integration : Type := {
  GetAWSOIDCIntegrationSpec : option AWSOIDCIntegrationSpecV1
}.

Record Configurator : Type := {
  spec : option ExternalCloudAuditSpec;
  isUsed : bool;
  credentialsCachePtr : option System
}.

Record Options : Type := {
  optClock : option Clock;
  optSTSClient : option STSClient
}.

(** What the package reaches outside itself: the build's modules and
    features, the real clock, the AWS default configuration (whose loading
    may fail) with the STS client made from it, and the [trace] helpers
    that make and recognise not-found errors. *)
Record Deps : Type := {
  featuresCloud : bool;
  featuresIsUsageBasedBilling : bool;
  isBoringBinary : bool;
  newRealClock : Clock;
  loadDefaultConfig : string -> bool -> Z -> STSClient + error;
  traceIsNotFound : error -> bool;
  traceNotFound : string -> string -> error
}.

(** The services consulted: what each call returns. *)
Record Services : Type := {
  GetClusterExternalCloudAudit : option ExternalCloudAudit * option error;
  GetDraftExternalCloudAudit : option ExternalCloudAudit * option error;
  GetIntegration : string -> option Integration * option error
}.

Definition setDefaults (d : Deps) (o : Options) (region : string)
  : Options * option error :=
  let o1 := match optClock o with
            | None => {| optClock := Some (newRealClock d);
                         optSTSClient := optSTSClient o |}
            | Some _ => o
            end in
  match optSTSClient o1 with
  | None =>
      match loadDefaultConfig d region (isBoringBinary d) 10 with
      | inr e => (o1, traceWrap (Some e))
      | inl client =>
          ({| optClock := optClock o1; optSTSClient := Some client |}, None)
      end
  | Some _ => (o1, None)
  end.

Definition WithClock (k : Clock) (opts : Options) : Options :=
  {| optClock := Some k; optSTSClient := optSTSClient opts |}.

Definition WithSTSClient (clt : STSClient) (opts : Options) : Options :=
  {| optClock := optClock opts; optSTSClient := Some clt |}.

Definition unusedConfigurator : Configurator :=
  {| spec := None; isUsed := false; credentialsCachePtr := None |}.

Definition integrationNotFound : string :=
  "ExternalCloudAudit: configured AWS OIDC integration %q not found".

Definition integrationNotAWSOIDC : string :=
  "ExternalCloudAudit: configured integration %q does not appear to be an AWS OIDC integration".

(** [newConfigurator]; the pair returned is the Configurator pointer (nil
    on failure) and the error. *)
Definition newConfigurator (d : Deps) (svc : Services) (ctx' : SignalChan)
    (spec' : ExternalCloudAuditSpec) (optFns : list (Options -> Options))
  : Result (option Configurator * option error) :=
  if negb (featuresCloud d) || featuresIsUsageBasedBilling d
  then Ok (Some unusedConfigurator, None)
  else
    let oidcIntegrationName := IntegrationName spec' in
    let r := GetIntegration svc oidcIntegrationName in
    let notFound := match snd r with
                    | Some e => traceIsNotFound d e
                    | None => false
                    end in
    if notFound
    then Ok (None, Some (traceNotFound d integrationNotFound oidcIntegrationName))
    else
      match fst r with
      | None => Panic nilDereference
      | Some integration =>
          match GetAWSOIDCIntegrationSpec integration with
          | None =>
              Ok (None, Some (traceNotFound d integrationNotAWSOIDC
                                oidcIntegrationName))
          | Some awsOIDCSpec =>
              let awsRoleARN := RoleARN awsOIDCSpec in
              let options :=
                fold_left (fun o optFn => optFn o) optFns
                          {| optClock := None; optSTSClient := None |} in
              match setDefaults d options (Region spec') with
              | (_, Some e) => Ok (None, traceWrap (Some e))
              | (options', None) =>
                  match optClock options', optSTSClient options' with
                  | Some k, Some clt =>
                      let cache :=
                        newCredentialsCache (Region spec') awsRoleARN k clt in
                      (* go credentialsCache.run(ctx) *)
                      Ok (Some {| spec := Some spec';
                                  isUsed := true;
                                  credentialsCachePtr :=
                                    Some {| st := {| cc := cache;
                                                     clockReads := 0;
                                                     oidcCalls := 0;
                                                     stsCalls := 0;
                                                     logged := [] |};
                                            ctx := ctx';
                                            loop := AwaitInitialized |} |},
                          None)
                  | _, _ => Panic nilDereference
                  end
              end
          end
      end.

Definition NewConfigurator (d : Deps) (svc : Services) (ctx' : SignalChan)
    (optFns : list (Options -> Options))
  : Result (option Configurator * option error) :=
  match GetClusterExternalCloudAudit svc with
  | (_, Some e) =>
      if traceIsNotFound d e
      then Ok (Some unusedConfigurator, None)
      else Ok (None, traceWrap (Some e))
  | (None, None) => Panic nilDereference
  | (Some active, None) => newConfigurator d svc ctx' (Spec active) optFns
  end.

Definition NewDraftConfigurator (d : Deps) (svc : Services) (ctx' : SignalChan)
    (optFns : list (Options -> Options))
  : Result (option Configurator * option error) :=
  match GetDraftExternalCloudAudit svc with
  | (_, Some e) => Ok (None, traceWrap (Some e))
  | (None, None) => Panic nilDereference
  | (Some draft, None) => newConfigurator d svc ctx' (Spec draft) optFns
  end.

Definition IsUsed (c : Configurator) : bool := isUsed c.

Definition GetSpec (c : Configurator) : option ExternalCloudAuditSpec := spec c.

Definition SetGenerateOIDCTokenFn (fn : option GenerateOIDCTokenFn)
    (c : Configurator) : Result Configurator :=
  match credentialsCachePtr c with
  | None => Panic nilDereference
  | Some sys =>
      match setGenerateOIDCTokenFn fn (st sys) with
      | Ok (_, s') =>
          Ok {| spec := spec c; isUsed := isUsed c;
                credentialsCachePtr :=
                  Some {| st := s'; ctx := ctx sys; loop := loop sys |} |}
      | Panic msg => Panic msg
      | Blocked => Blocked
      end
  end.

(** [CredentialsProvider] hands out the cache pointer as a provider;
    [providerRetrieve] is the provider's [Retrieve]. *)
Definition CredentialsProvider (c : Configurator) : option System :=
  credentialsCachePtr c.

Definition providerRetrieve (p : option System)
  : Result (Credentials * option error) :=
  match p with
  | None => Panic nilDereference
  | Some sys =>
      match Retrieve (st sys) with
      | Ok (r, _) => Ok r
      | Panic msg => Panic msg
      | Blocked => Blocked
      end
  end.

Definition CredentialsProviderSDKV1 (c : Configurator) : v1Adapter :=
  {| adapterCC := credentialsCachePtr c |}.

Definition WaitForFirstCredentials (ctxDone : SignalChan) (c : Configurator)
  : Result unit :=
  match credentialsCachePtr c with
  | None => Panic nilDereference
  | Some sys =>
      match waitForFirstCredsOrErr ctxDone (st sys) with
      | Ok (_, _) => Ok tt
      | Panic msg => Panic msg
      | Blocked => Blocked
      end
  end.

(** Sample services and dependencies. *)
Definition sampleIsNotFound (e : error) : bool :=
  match e with
  | errorsNew msg => String.prefix "not found" msg
  | traceError (errorsNew msg) => String.prefix "not found" msg
  | _ => false
  end.

Definition sampleDeps (cloud usageBased : bool) : Deps :=
  {| featuresCloud := cloud;
     featuresIsUsageBasedBilling := usageBased;
     isBoringBinary := false;
     newRealClock := clockAt 0;
     loadDefaultConfig := fun _ _ _ => inr (errorsNew "no AWS configuration");
     traceIsNotFound := sampleIsNotFound;
     traceNotFound := fun fmt arg => errorsNew ("not found: " ++ arg) |}.

Definition sampleSpec : ExternalCloudAuditSpec :=
  {| IntegrationName := "aws-oidc"; Region := "eu-west-1" |}.

Definition sampleServices (lookup : option Integration * option error) : Services :=
  {| GetClusterExternalCloudAudit := (Some {| Spec := sampleSpec |}, None);
     GetDraftExternalCloudAudit := (None, Some (errorsNew "not found: draft"));
     GetIntegration := fun _ => lookup |}.

Definition sampleIntegration : Integration :=
  {| GetAWSOIDCIntegrationSpec :=
       Some {| RoleARN := "arn:aws:iam::123456789012:role/audit" |} |}.

(** *** Counting what a poll asked of the issuer *)

(** The outcome of the next call of the attached token source. *)
Definition nextTokenFails (s : St) : bool :=
  match generateOIDCTokenFn (cc s) with
  | Some fn => negb (isNil (snd (fn (oidcCalls s))))
  | None => false
  end.

End ExternalCloudAudit.

(** ** Package interval *)

Module Interval.

(** Modelled from the spec: the Clock capability ([clockwork.Clock] and
    its timers) is consumed by this package but not defined in it: "a
    substitutable source of "now" and of timers/tickers"; "production
    implementations use real wall-clock time; test implementations allow
    manual time advancement".  A clock is either the real one or a fake
    one; [Times] holds what each reads at the moment. *)
Inductive clockwork_Clock : Type :=
| realClock
| fakeClock.

Record Times : Type := {
  wall : time_Time;
  fake : time_Time
}.

(** [time.Now()] reads the wall clock, whatever clock was configured. *)
Definition time_Now (w : Times) : time_Time := wall w.

Definition Clock_Now (c : clockwork_Clock) (w : Times) : time_Time :=
  match c with
  | realClock => wall w
  | fakeClock => fake w
  end.

(** Modelled from the spec: a timer of the Clock capability, with the
    contract of Go's [time.Timer]: while armed it is waiting for [wait] to
    elapse on its clock; when it expires it offers the clock's time on its
    channel [C] of capacity one without blocking; [Stop] disarms it and
    reports whether it was still armed; [Reset] arms it anew. *)
Record Arming : Type := {
  since : time_Time;
  wait : time_Duration
}.

Record Timer : Type := {
  timerClock : clockwork_Clock;
  armed : option Arming;
  C : list time_Time
}.

Definition NewTimer (c : clockwork_Clock) (d : time_Duration) (w : Times) : Timer :=
  {| timerClock := c;
     armed := Some {| since := Clock_Now c w; wait := d |};
     C := [] |}.

Definition Timer_Stop (t : Timer) : bool * Timer :=
  (negb (isNil (armed t)),
   {| timerClock := timerClock t; armed := None; C := C t |}).

Definition Timer_Reset (t : Timer) (d : time_Duration) (w : Times) : Timer :=
  {| timerClock := timerClock t;
     armed := Some {| since := Clock_Now (timerClock t) w; wait := d |};
     C := C t |}.

Definition Timer_due (t : Timer) (w : Times) : bool :=
  match armed t with
  | Some a => since a + wait a <=? Clock_Now (timerClock t) w
  | None => false
  end.

(** The runtime's side of an expiry: disarm, and offer the time on [C]
    (dropped when the buffer is occupied). *)
Definition Timer_expire (t : Timer) (w : Times) : Timer :=
  {| timerClock := timerClock t;
     armed := None;
     C := match C t with
          | [] => [Clock_Now (timerClock t) w]
          | pending => pending
          end |}.

(** A buffered [chan time.Time]. *)
Record Chan : Type := {
  capacity : nat;
  buf : list time_Time;
  chClosed : bool
}.

Definition makeChan (n : nat) : Chan :=
  {| capacity := n; buf := []; chClosed := false |}.

Definition sendReady (c : Chan) : bool :=
  (List.length (buf c) <? capacity c)%nat.

Definition push (c : Chan) (v : time_Time) : Chan :=
  {| capacity := capacity c; buf := buf c ++ [v]; chClosed := chClosed c |}.

(** An unbuffered [chan struct{}]: a send completes only in a rendezvous
    with a receiver.  The state is the number of senders parked on it. *)
Record SyncChan : Type := { parkedSenders : nat }.

Definition makeSync : SyncChan := {| parkedSenders := 0 |}.

(** Modelled from the spec: [retryutils.Jitter] is "a pure function mapping
    a nominal duration to a randomized duration within a bounded range";
    its randomness is the index of the draw.  In [Config] the fields
    [Jitter] and [Clock] may be nil. *)
Record Config : Type := {
  Duration : time_Duration;
  FirstDuration : time_Duration;
  Jitter : option (nat -> time_Duration -> time_Duration);
  Clock : option clockwork_Clock
}.

Record Interval : Type := {
  cfg : Config;
  ch : Chan;
  reset : SyncChan;
  fire : SyncChan;
  closeOnce : bool;
  done : SignalChan
}.

(** The goroutine executing [run]: where it is, and its local variables
    [timer], [tick] and [ch] ([sending] tells whether the local [ch] is
    [i.ch] rather than nil). *)
Inductive Status : Type :=
| Running   (* started, or between two [select]s: it will evaluate the next *)
| Parked    (* blocked in the [select]: no arm was ready *)
| Exited.   (* returned through the [done] arm *)

Record Task : Type := {
  status : Status;
  timer : Timer;
  tick : time_Time;
  sending : bool
}.

(** What an execution lets an observer see of the triggers. *)
Inductive Obs : Type :=
| Staged (t : time_Time)
| Sent (t : time_Time)
| Received (t : time_Time).

Record Sys : Type := {
  ival : Interval;
  task : Task;
  times : Times;
  jitterCalls : nat;
  hist : list Obs
}.

Definition zeroTime : time_Time := 0.

(** [duration]: the n-th draw of the jitter, when one is configured. *)
Definition duration (i : Interval) (n : nat) : time_Duration * nat :=
  match Jitter (cfg i) with
  | None => (Duration (cfg i), n)
  | Some jitter => (jitter n (Duration (cfg i)), S n)
  end.

Definition New (c : Config) (w : Times) (n : nat) : Result Sys :=
  if Duration c <=? 0 then Panic "non-positive interval for interval.New"
  else
    let clock := match Clock c with
                 | None => realClock
                 | Some k => k
                 end in
    let interval := {| cfg := c; ch := makeChan 1; reset := makeSync;
                       fire := makeSync; closeOnce := false;
                       done := makeSignal |} in
    let first := if FirstDuration c =? 0 then duration interval n
                 else (FirstDuration c, n) in
    let timer0 := NewTimer clock (fst first) w in
    Ok {| ival := interval;
          task := {| status := Running; timer := timer0; tick := zeroTime;
                     sending := false |};
          times := w;
          jitterCalls := snd first;
          hist := [] |}.

(** *** The arms of the [select] in [run] *)

Definition setTask (s : Sys) (t : Task) : Sys :=
  {| ival := ival s; task := t; times := times s;
     jitterCalls := jitterCalls s; hist := hist s |}.

Definition setIval (s : Sys) (i : Interval) : Sys :=
  {| ival := i; task := task s; times := times s;
     jitterCalls := jitterCalls s; hist := hist s |}.

Definition observe (s : Sys) (o : Obs) : Sys :=
  {| ival := ival s; task := task s; times := times s;
     jitterCalls := jitterCalls s; hist := hist s ++ [o] |}.

(** [timer.Reset(i.duration())] *)
Definition rearm (s : Sys) : Sys :=
  let d := duration (ival s) (jitterCalls s) in
  {| ival := ival s;
     task := {| status := status (task s);
                timer := Timer_Reset (timer (task s)) (fst d) (times s);
                tick := tick (task s);
                sending := sending (task s) |};
     times := times s;
     jitterCalls := snd d;
     hist := hist s |}.

(** [if !timer.Stop() { <-timer.Chan() }] *)
Definition stopAndDrain (s : Sys) : Result Sys :=
  let r := Timer_Stop (timer (task s)) in
  let withTimer (t : Timer) :=
    setTask s {| status := status (task s); timer := t;
                 tick := tick (task s); sending := sending (task s) |} in
  if fst r then Ok (withTimer (snd r))
  else
    match C (snd r) with
    | [] => Blocked
    | _ :: rest =>
        Ok (withTimer {| timerClock := timerClock (snd r);
                         armed := armed (snd r); C := rest |})
    end.

Definition setLocals (s : Sys) (st : Status) (t : time_Time) (out : bool) : Sys :=
  setTask s {| status := st; timer := timer (task s); tick := t; sending := out |}.

(** [case tick = <-timer.Chan()], having received [t]. *)
Definition onTimer (t : time_Time) (s : Sys) : Sys :=
  observe (setLocals (rearm s) Running t true) (Staged t).

(** [case <-i.reset] *)
Definition onReset (s : Sys) : Result Sys :=
  match stopAndDrain s with
  | Ok s1 => let s2 := rearm s1 in Ok (setLocals s2 Running (tick (task s2)) false)
  | Panic msg => Panic msg
  | Blocked => Blocked
  end.

(** [case <-i.fire] *)
Definition onFire (s : Sys) : Result Sys :=
  match stopAndDrain s with
  | Ok s1 =>
      let s2 := rearm s1 in
      let now := time_Now (times s2) in
      Ok (observe (setLocals s2 Running now true) (Staged now))
  | Panic msg => Panic msg
  | Blocked => Blocked
  end.

(** [case ch <- tick], the send having completed. *)
Definition onSent (s : Sys) : Sys :=
  observe (setLocals s Running (tick (task s)) false) (Sent (tick (task s))).

(** [case <-i.done]: return, running the deferred [timer.Stop()]. *)
Definition onDone (s : Sys) : Sys :=
  setTask s {| status := Exited;
               timer := snd (Timer_Stop (timer (task s)));
               tick := tick (task s);
               sending := sending (task s) |}.

Inductive Case : Type :=
| CaseTimer
| CaseReset
| CaseFire
| CaseSend
| CaseDone.

(** Which arms of the [select] in [run] can proceed at once. *)
Definition ready (s : Sys) (c : Case) : bool :=
  match c with
  | CaseTimer => negb (isNil (hd_error (C (timer (task s)))))
  | CaseReset => (0 <? parkedSenders (reset (ival s)))%nat
  | CaseFire => (0 <? parkedSenders (fire (ival s)))%nat
  | CaseSend => sending (task s) && sendReady (ch (ival s))
  | CaseDone => recvReady (done (ival s))
  end.

Definition noneReady (s : Sys) : bool :=
  negb (ready s CaseTimer || ready s CaseReset || ready s CaseFire
        || ready s CaseSend || ready s CaseDone).

Definition setCh (s : Sys) (c : Chan) : Sys :=
  setIval s {| cfg := cfg (ival s); ch := c; reset := reset (ival s);
               fire := fire (ival s); closeOnce := closeOnce (ival s);
               done := done (ival s) |}.

Definition setSenders (s : Sys) (r f : nat) : Sys :=
  setIval s {| cfg := cfg (ival s); ch := ch (ival s);
               reset := {| parkedSenders := r |};
               fire := {| parkedSenders := f |};
               closeOnce := closeOnce (ival s);
               done := done (ival s) |}.

Definition setTimer (s : Sys) (t : Timer) : Sys :=
  setTask s {| status := status (task s); timer := t;
               tick := tick (task s); sending := sending (task s) |}.

(** [run]: one iteration of the loop, the [select] taking the ready arm
    [c] (Go picks any ready arm). *)
Definition run (c : Case) (s : Sys) : Result Sys :=
  if ready s c then
    match c with
    | CaseTimer =>
        match C (timer (task s)) with
        | t :: rest =>
            Ok (onTimer t (setTimer s {| timerClock := timerClock (timer (task s));
                                         armed := armed (timer (task s));
                                         C := rest |}))
        | [] => Blocked
        end
    | CaseReset =>
        onReset (setSenders s (pred (parkedSenders (reset (ival s))))
                              (parkedSenders (fire (ival s))))
    | CaseFire =>
        onFire (setSenders s (parkedSenders (reset (ival s)))
                             (pred (parkedSenders (fire (ival s)))))
    | CaseSend =>
        Ok (onSent (setCh s (push (ch (ival s)) (tick (task s)))))
    | CaseDone => Ok (onDone s)
    end
  else Blocked.

(** *** The methods called from other goroutines *)

(** The arm that the [select] of a [Reset] or [FireNow] caller takes. *)
Inductive CallerCase : Type :=
| ViaSend
| ViaDone.

(** [Stop]: [closeOnce.Do(func() { close(i.done) })].  Closing [done] wakes
    every goroutine parked in a [select] that receives from it: the parked
    [Reset]/[FireNow] callers return, and a parked [run] takes its [done]
    arm. *)
Definition Stop (s : Sys) : Result Sys :=
  if closeOnce (ival s) then Ok s
  else
    match closeSignal (done (ival s)) with
    | Ok d =>
        let s1 := setIval s {| cfg := cfg (ival s); ch := ch (ival s);
                               reset := makeSync; fire := makeSync;
                               closeOnce := true; done := d |} in
        match status (task s1) with
        | Parked => Ok (onDone s1)
        | _ => Ok s1
        end
    | Panic msg => Panic msg
    | Blocked => Blocked
    end.

(** [Reset]: the send proceeds at once only in a rendezvous with a [run]
    parked in its [select]; the receive proceeds only when [done] is
    closed. *)
Definition Reset (c : CallerCase) (s : Sys) : Result Sys :=
  match c with
  | ViaSend =>
      match status (task s) with
      | Parked => onReset s
      | _ => Blocked
      end
  | ViaDone => if recvReady (done (ival s)) then Ok s else Blocked
  end.

Definition FireNow (c : CallerCase) (s : Sys) : Result Sys :=
  match c with
  | ViaSend =>
      match status (task s) with
      | Parked => onFire s
      | _ => Blocked
      end
  | ViaDone => if recvReady (done (ival s)) then Ok s else Blocked
  end.

(** A caller for which neither arm is ready parks on the channel. *)
Definition callerMustPark (s : Sys) : bool :=
  negb (recvReady (done (ival s)))
  && match status (task s) with Parked => false | _ => true end.

(** [Next]: the channel handed to consumers. *)
Definition Next (s : Sys) : Chan := ch (ival s).

(** A consumer receives from [Next()].  If [run] is parked with a staged
    tick behind a full buffer, the receive lets that send complete. *)
Definition receive (s : Sys) : Result Sys :=
  match buf (Next s) with
  | [] => Blocked
  | v :: rest =>
      let s1 := observe (setCh s {| capacity := capacity (ch (ival s));
                                    buf := rest;
                                    chClosed := chClosed (ch (ival s)) |})
                        (Received v) in
      match status (task s1) with
      | Parked =>
          if sending (task s1)
          then Ok (onSent (setCh s1 (push (ch (ival s1)) (tick (task s1)))))
          else Ok s1
      | _ => Ok s1
      end
  end.

(** *** Schedules

    One event is one move of one party.  A [select] first looks for arms
    that can proceed at once and takes any one of them; only when there is
    none does the goroutine park, and a parked goroutine is woken by the
    first operation that completes one of its arms.  A send on an
    unbuffered channel can proceed at once only if a receiver is parked on
    it, and a receive only if a sender is; a receive from a closed channel
    always proceeds.  An event that cannot happen in a state yields
    [Blocked]. *)

Inductive Event : Type :=
| EvClock (w : Times)          (* time passes on the clocks *)
| EvExpire                     (* the armed timer is due and expires *)
| EvSelect (c : Case)          (* [run] is at its [select] and takes arm [c] *)
| EvPark                       (* [run] finds no arm ready and parks *)
| EvReset (c : CallerCase)     (* a [Reset()] call returns through arm [c] *)
| EvResetPark                  (* a [Reset()] call finds no arm ready and parks *)
| EvFireNow (c : CallerCase)   (* a [FireNow()] call returns through arm [c] *)
| EvFireNowPark                (* a [FireNow()] call finds no arm ready and parks *)
| EvStop                       (* a [Stop()] call *)
| EvRecv.                      (* a consumer receives from [Next()] *)

Definition step (ev : Event) (s : Sys) : Result Sys :=
  match ev with
  | EvClock w =>
      if (wall (times s) <=? wall w) && (fake (times s) <=? fake w)
      then Ok {| ival := ival s; task := task s; times := w;
                 jitterCalls := jitterCalls s; hist := hist s |}
      else Blocked
  | EvExpire =>
      if Timer_due (timer (task s)) (times s) then
        match status (task s) with
        | Parked =>
            (* handed directly to the parked receiver *)
            Ok (onTimer (Clock_Now (timerClock (timer (task s))) (times s))
                        (setTimer s (snd (Timer_Stop (timer (task s))))))
        | _ => Ok (setTimer s (Timer_expire (timer (task s)) (times s)))
        end
      else Blocked
  | EvSelect c =>
      match status (task s) with
      | Running => run c s
      | _ => Blocked
      end
  | EvPark =>
      match status (task s) with
      | Running =>
          if noneReady s
          then Ok (setLocals s Parked (tick (task s)) (sending (task s)))
          else Blocked
      | _ => Blocked
      end
  | EvReset c => Reset c s
  | EvResetPark =>
      if callerMustPark s
      then Ok (setSenders s (S (parkedSenders (reset (ival s))))
                            (parkedSenders (fire (ival s))))
      else Blocked
  | EvFireNow c => FireNow c s
  | EvFireNowPark =>
      if callerMustPark s
      then Ok (setSenders s (parkedSenders (reset (ival s)))
                            (S (parkedSenders (fire (ival s)))))
      else Blocked
  | EvStop => Stop s
  | EvRecv => receive s
  end.

Fixpoint exec (evs : list Event) (s : Sys) : Result Sys :=
  match evs with
  | [] => Ok s
  | ev :: rest =>
      match step ev s with
      | Ok s' => exec rest s'
      | Panic msg => Panic msg
      | Blocked => Blocked
      end
  end.

Definition Reachable (s : Sys) : Prop :=
  exists c w n s0 evs, New c w n = Ok s0 /\ exec evs s0 = Ok s.

(** *** Counting what an execution showed *)

Definition isStaged (o : Obs) : bool :=
  match o with Staged _ => true | _ => false end.
Definition isSent (o : Obs) : bool :=
  match o with Sent _ => true | _ => false end.
Definition isReceived (o : Obs) : bool :=
  match o with Received _ => true | _ => false end.

Definition count (p : Obs -> bool) (h : list Obs) : nat :=
  List.length (filter p h).

(** The triggers staged or handed to the output channel so far. *)
Definition produced (h : list Obs) : list Obs :=
  filter (fun o => isStaged o || isSent o) h.

Definition b2n (b : bool) : nat := if b then 1%nat else 0%nat.

(** *** Properties carried along every schedule *)

Definition chanInv (s : Sys) : Prop :=
  capacity (ch (ival s)) = 1%nat
  /\ (List.length (buf (ch (ival s))) <= 1)%nat
  /\ chClosed (ch (ival s)) = false.

(** While [run] is alive its timer is either armed with an empty channel or
    expired with exactly one firing pending. *)
Definition timerInv (s : Sys) : Prop :=
  match status (task s) with
  | Exited => armed (timer (task s)) = None
  | _ =>
      (armed (timer (task s)) <> None /\ C (timer (task s)) = [])
      \/ (armed (timer (task s)) = None
          /\ exists t, C (timer (task s)) = [t])
  end.

Definition parkedInv (s : Sys) : Prop :=
  status (task s) = Parked ->
  sigClosed (done (ival s)) = false
  /\ C (timer (task s)) = []
  /\ (sending (task s) = true -> List.length (buf (ch (ival s))) = 1%nat).

Definition doneInv (s : Sys) : Prop :=
  closeOnce (ival s) = sigClosed (done (ival s))
  /\ (sigClosed (done (ival s)) = true ->
      parkedSenders (reset (ival s)) = 0%nat
      /\ parkedSenders (fire (ival s)) = 0%nat)
  /\ (status (task s) = Exited -> sigClosed (done (ival s)) = true).

Definition countInv (s : Sys) : Prop :=
  (count isSent (hist s) + b2n (sending (task s))
   <= count isStaged (hist s))%nat
  /\ (List.length (buf (ch (ival s))) + count isReceived (hist s)
      = count isSent (hist s))%nat.

(** Where triggers come from: whatever was sent had been staged, whatever
    sits in the output channel or was received had been sent, and the tick
    waiting to be sent is one that was staged. *)
Definition Provenance (s : Sys) : Prop :=
  (forall t, In (Sent t) (hist s) -> In (Staged t) (hist s))
  /\ (sending (task s) = true -> In (Staged (tick (task s))) (hist s))
  /\ (forall t, In (Received t) (hist s) -> In (Sent t) (hist s))
  /\ (forall t, In t (buf (ch (ival s))) -> In (Sent t) (hist s)).

Definition Inv (s : Sys) : Prop :=
  chanInv s /\ timerInv s /\ parkedInv s /\ doneInv s /\ countInv s.

(** The property "after [Stop()] no further trigger is ever staged or
    produced", read on schedules: once [done] is closed, nothing that
    follows stages or sends a trigger. *)
Definition StopHaltsAtOnce : Prop :=
  forall c w n s0 evs1 s1 evs2 s2,
    New c w n = Ok s0 ->
    exec evs1 s0 = Ok s1 ->
    sigClosed (done (ival s1)) = true ->
    exec evs2 s1 = Ok s2 ->
    produced (hist s2) = produced (hist s1).

(** The property "a synthetic trigger carries the configured clock's now". *)
Definition FireUsesConfiguredClock : Prop :=
  forall s s' k,
    Reachable s ->
    Clock (cfg (ival s)) = Some k ->
    (step (EvSelect CaseFire) s = Ok s' \/ step (EvFireNow ViaSend) s = Ok s') ->
    tick (task s') = Clock_Now k (times s').

(** The wait that the next [timer.Reset(i.duration())] will ask for. *)
Definition nextWait (s : Sys) : time_Duration :=
  fst (duration (ival s) (jitterCalls s)).

(** Sample inputs used to exercise the definitions. *)
Definition fullJitter (n : nat) (d : time_Duration) : time_Duration :=
  if d <? 1 then 0 else d - (Z.of_nat n) mod d.

Definition sampleConfig : Config :=
  {| Duration := 10 * Second; FirstDuration := Second;
     Jitter := None; Clock := Some fakeClock |}.

Definition jitteredConfig : Config :=
  {| Duration := 10 * Second; FirstDuration := 0;
     Jitter := Some fullJitter; Clock := None |}.

Definition sampleTimes : Times := {| wall := 5000; fake := 1000 |}.

Definition laterTimes : Times := {| wall := 5000 + 2 * Second; fake := 1000 + 2 * Second |}.

(** *** Arming the timer *)

(** The steps in which [run] takes its timer, reset or fire arm: its
    [select] takes the arm, or the expiry or the caller meets it parked in
    the [select]. *)
Definition rearming (ev : Event) (s : Sys) : bool :=
  match ev with
  | EvSelect CaseTimer | EvSelect CaseReset | EvSelect CaseFire => true
  | EvReset ViaSend | EvFireNow ViaSend => true
  | EvExpire => match status (task s) with Parked => true | _ => false end
  | _ => false
  end.

(** The property "with [FirstDuration] zero the first wait is never an
    immediate fire": the timer that [New] arms is not due at once. *)
Definition FirstWaitNeverImmediate : Prop :=
  forall c w n s,
    New c w n = Ok s ->
    FirstDuration c = 0 ->
    Timer_due (timer (task s)) (times s) = false.

(** A jitter whose every draw is zero. *)
Definition zeroJitter (n : nat) (d : time_Duration) : time_Duration := 0.

Definition zeroJitterConfig : Config :=
  {| Duration := 10 * Second; FirstDuration := 0;
     Jitter := Some zeroJitter; Clock := None |}.

(** *** The interval that never fires *)

(** [NewNoop]: only [ch] and [done] are made; [cfg] is the zero value,
    [reset] and [fire] are nil channels, and no goroutine is started.  A
    send on a nil channel never proceeds, which is what a send on a [reset]
    or [fire] that nobody receives from does; with no goroutine running
    [run], the task is as one that has returned, and there is no timer. *)
Definition noTimer : Timer :=
  {| timerClock := realClock; armed := None; C := [] |}.

Definition NewNoop (w : Times) (n : nat) : Sys :=
  {| ival := {| cfg := {| Duration := 0; FirstDuration := 0; Jitter := None;
                          Clock := None |};
                ch := makeChan 1;
                reset := makeSync;
                fire := makeSync;
                closeOnce := false;
                done := makeSignal |};
     task := {| status := Exited; timer := noTimer; tick := zeroTime;
                sending := false |};
     times := w;
     jitterCalls := n;
     hist := [] |}.

(** What an execution from [NewNoop] keeps: no task, no timer, nothing
    staged, sent or buffered. *)
Definition Idle (s : Sys) : Prop :=
  status (task s) = Exited
  /\ armed (timer (task s)) = None
  /\ buf (ch (ival s)) = []
  /\ hist s = []
  /\ closeOnce (ival s) = sigClosed (done (ival s))
  /\ (sigClosed (done (ival s)) = true ->
      parkedSenders (reset (ival s)) = 0%nat
      /\ parkedSenders (fire (ival s)) = 0%nat).

Definition isStop (ev : Event) : bool :=
  match ev with EvStop => true | _ => false end.

(** *** The timestamps an execution showed, in order *)


Definition sentValues (h : list Obs) : list time_Time :=
  flat_map (fun o => match o with Sent t => [t] | _ => [] end) h.

Definition receivedValues (h : list Obs) : list time_Time :=
  flat_map (fun o => match o with Received t => [t] | _ => [] end) h.


(** The output channel is a queue: what was sent is what was received
    followed by what is still buffered. *)
Definition Fifo (s : Sys) : Prop :=
  sentValues (hist s) = receivedValues (hist s) ++ buf (ch (ival s)).




(** *** Ticks that are never sent

    The ticks staged so far that were neither handed to the output channel
    nor are waiting to be. *)
Definition dropped (s : Sys) : nat :=
  (count isStaged (hist s)
   - (count isSent (hist s) + b2n (sending (task s))))%nat.

(** A tick waiting to be sent is lost when the step stages another one in
    its place, or clears it without sending it. *)
Definition overwrites (s s' : Sys) : Prop :=
  sending (task s) = true
  /\ (count isStaged (hist s') = S (count isStaged (hist s))
      \/ (sending (task s') = false
          /\ count isSent (hist s') = count isSent (hist s))).

End Interval.

(** * Case analysis on the code

    The embedded functions branch on the state; these tactics split a goal
    along the innermost [match] whose scrutinee is already a plain term. *)

Ltac atomic x :=
  lazymatch x with
  | context [match _ with _ => _ end] => fail
  | _ => idtac
  end.

Ltac split_match :=
  match goal with
  | H : context [match ?x with _ => _ end] |- _ => atomic x; destruct x eqn:?
  | |- context [match ?x with _ => _ end] => atomic x; destruct x eqn:?
  end.

(** * Verification of the credentials cache *)

Module CacheProofs.
Import ExternalCloudAudit.

Ltac unfold_go :=
  unfold refreshIfNeeded, refresh, setGenerateOIDCTokenFn, setCredsOrErr,
    closeGotFirstCredsOrErr, closeInitialized, waitForFirstCredsOrErr,
    Retrieve, callGenerateOIDCTokenFn, roleProviderRetrieve, clockNow, logf,
    putCache, getCache, panic, bind, ret, closeSignal, recvReady in *.

(** The same without [refresh], to reason about a poll given the outcome
    of its refresh. *)
Ltac unfold_poll :=
  unfold refreshIfNeeded, setCredsOrErr, closeGotFirstCredsOrErr, Retrieve,
    clockNow, logf, putCache, getCache, panic, bind, ret, closeSignal in *.

Ltac project :=
  cbn [cc clockReads oidcCalls stsCalls logged fst snd cached creds err
       roleARN generateOIDCTokenFn initialized closeInitializedDone
       gotFirstCredsOrErr closeGotFirstCredsOrErrDone stsClient clock
       sigClosed st ctx loop published andb orb negb isNil] in *.

Ltac crunch := repeat (project; split_match); project.

Example refreshBeforeExpirationPeriod_is_15_minutes :
  refreshBeforeExpirationPeriod = 900000000000.
Proof. reflexivity. Qed.

Example zero_credentials_have_no_keys : HasKeys zeroCredentials = false.
Proof. reflexivity. Qed.

Example first_poll_failure_is_published :
  exists s',
    refreshIfNeeded (sampleState (Some tokenFails)
                       {| creds := zeroCredentials; err := Some notYetInitialized |}
                       false 100 stsFails) = Ok (tt, s')
    /\ err (cached (cc s')) = Some (traceError (errorsNew "auth unavailable"))
    /\ sigClosed (gotFirstCredsOrErr (cc s')) = true.
Proof. vm_compute. eexists. split; [reflexivity | split; reflexivity]. Qed.

(** *** One poll *)

Lemma refresh_error_is_wrapped (s s1 : St) (c0 : Credentials) (e : error) :
  refresh s = Ok ((c0, Some e), s1) -> traceWrap (Some e) = Some e.
Proof.
  unfold_go. intros H. crunch; try discriminate.
  - injection H as _ H _. destruct e0; cbn in H; injection H as <-; reflexivity.
  - injection H as _ H _.
    destruct (snd _) as [e1|] in H; [|discriminate].
    destruct e1; cbn in H; injection H as <-; reflexivity.
Qed.

(** [refresh] neither reads the clock nor writes the log or the cache. *)
Lemma refresh_frame (c : credentialsCache) (r r' o t : nat) (l l' : list LogEntry) :
  refresh {| cc := c; clockReads := r'; oidcCalls := o; stsCalls := t; logged := l' |}
  = match refresh {| cc := c; clockReads := r; oidcCalls := o; stsCalls := t;
                     logged := l |} with
    | Ok (p, s1) =>
        Ok (p, {| cc := c; clockReads := r'; oidcCalls := oidcCalls s1;
                  stsCalls := stsCalls s1; logged := l' |})
    | Panic msg => Panic msg
    | Blocked => Blocked
    end.
Proof. unfold_go. crunch; reflexivity. Qed.

Lemma refresh_invokes_issuer (s s1 : St) (p : Credentials * option error) :
  refresh s = Ok (p, s1) ->
  generateOIDCTokenFn (cc s) <> None /\ oidcCalls s1 = S (oidcCalls s).
Proof.
  unfold_go. intros H. destruct s as [c r o t l].
  crunch; try discriminate; injection H as _ <-; project;
    (split; [discriminate | reflexivity]).
Qed.

(** What one poll can do to the cache: leave it alone, or publish. *)
Lemma refreshIfNeeded_effect (s s' : St) :
  latchesConsistent (cc s) ->
  refreshIfNeeded s = Ok (tt, s') ->
  (cc s' = cc s
   /\ (cachedIsFresh s = true \/ HasKeys (creds (cached (cc s))) = true))
  \/ (exists coe, cc s' = published (cc s) coe
                  /\ (err coe <> None -> creds coe = zeroCredentials)).
Proof.
  intros [_ Hl] H. unfold cachedIsFresh in *. unfold_go.
  destruct s as [[ra fn ini iniD [got] gotD held sts clk] r o t l].
  crunch; subst; try discriminate;
    injection H as <-; project;
    try (left; split; [reflexivity | auto; fail]);
    right; eexists; (split; [reflexivity | cbn; intros; congruence]).
Qed.

(** C2: a poll whose cached result holds a nil error and non-empty
    credentials expiring more than [refreshBeforeExpirationPeriod] (15
    minutes, 900000000000 ns) after the clock's reading does nothing: the
    cache, the token source, STS and the log are left as they were.  In
    every other case a refresh is attempted: the poll logs it and invokes
    the token source once. *)
Theorem poll_skips_exactly_when_fresh (s : St) :
  let held := cached (cc s) in
  let now := clock (cc s) (clockReads s) in
  (err held = None ->
   HasKeys (creds held) = true ->
   now + 900000000000 < Expires (creds held) ->
   exists s',
     refreshIfNeeded s = Ok (tt, s')
     /\ cc s' = cc s
     /\ oidcCalls s' = oidcCalls s
     /\ stsCalls s' = stsCalls s
     /\ logged s' = logged s)
  /\ (~ (err held = None
         /\ HasKeys (creds held) = true
         /\ now + 900000000000 < Expires (creds held)) ->
      generateOIDCTokenFn (cc s) <> None ->
      latchesConsistent (cc s) ->
      exists s',
        refreshIfNeeded s = Ok (tt, s')
        /\ oidcCalls s' = S (oidcCalls s)
        /\ In LogRefreshingCredentials (logged s')).
Proof.
  cbv zeta. split.
  - intros He Hk Hlt. apply Z.ltb_lt in Hlt.
    unfold_go. unfold Time_Before, Time_Add.
    change refreshBeforeExpirationPeriod with 900000000000.
    destruct s as [c r o t l]. project.
    rewrite He, Hk. project. rewrite Hlt.
    eexists. repeat split.
  - intros Hn Hfn [_ Hl].
    assert (Hfresh : cachedIsFresh s = false).
    { unfold cachedIsFresh, Time_Before, Time_Add.
      change refreshBeforeExpirationPeriod with 900000000000.
      destruct (err (cached (cc s))) eqn:He; [reflexivity|].
      destruct (HasKeys (creds (cached (cc s)))) eqn:Hk; [|reflexivity].
      cbn. apply Z.ltb_ge.
      destruct (Z.lt_ge_cases (clock (cc s) (clockReads s) + 900000000000)
                  (Expires (creds (cached (cc s))))) as [Hlt|Hge]; [|exact Hge].
      exfalso. apply Hn. auto. }
    unfold cachedIsFresh in Hfresh. unfold_go.
    destruct s as [[ra fn ini iniD [got] gotD held sts clk] r o t l].
    project. destruct fn as [fn|]; [clear Hfn | congruence].
    crunch; subst; try discriminate;
      eexists; (split; [reflexivity | split; [reflexivity |]]);
      cbn; rewrite ?in_app_iff; cbn; tauto.
Qed.

Lemma poll_skips_exactly_when_fresh_witness :
  (exists s',
     refreshIfNeeded (sampleState (Some tokenOk)
                        {| creds := sampleCreds (100 + Hour); err := None |}
                        true 100 stsFails) = Ok (tt, s')
     /\ oidcCalls s' = 0%nat)
  /\ (exists s',
        refreshIfNeeded (sampleState (Some tokenOk)
                           {| creds := sampleCreds (100 + 15 * Minute); err := None |}
                           true 100 (stsIssues 7200)) = Ok (tt, s')
        /\ oidcCalls s' = 1%nat).
Proof.
  split.
  - destruct (poll_skips_exactly_when_fresh
                (sampleState (Some tokenOk)
                   {| creds := sampleCreds (100 + Hour); err := None |}
                   true 100 stsFails)) as [Hskip _].
    destruct Hskip as [s' [H1 [_ [H2 _]]]];
      [reflexivity | reflexivity | reflexivity |].
    exists s'. split; [exact H1 | exact H2].
  - destruct (poll_skips_exactly_when_fresh
                (sampleState (Some tokenOk)
                   {| creds := sampleCreds (100 + 15 * Minute); err := None |}
                   true 100 (stsIssues 7200))) as [_ Hpoll].
    destruct Hpoll as [s' [H1 [H2 _]]].
    + intros [_ [_ H]]. vm_compute in H. discriminate.
    + discriminate.
    + split; reflexivity.
    + exists s'. split; [exact H1 | exact H2].
Defined.

(** C1: on a poll whose refresh fails, cached credentials that are
    non-empty and not yet expired at the clock's reading are left exactly
    as they were ([Retrieve] returns what it returned before, and a cache
    that held credentials without an error still holds no error); in every
    other case (nothing cached yet, or the cached credentials have expired)
    the cached result is replaced by the failure in one write. *)
Theorem failed_refresh_keeps_valid_credentials
    (s s1 : St) (c0 : Credentials) (e : error) :
  cachedIsFresh s = false ->
  refresh s = Ok ((c0, Some e), s1) ->
  latchesConsistent (cc s) ->
  let held := creds (cached (cc s)) in
  let now := clock (cc s) (validityCheckReading s) in
  exists s',
    refreshIfNeeded s = Ok (tt, s')
    /\ (HasKeys held = true /\ now < Expires held ->
        cc s' = cc s
        /\ Retrieve s' = Ok ((held, err (cached (cc s))), s')
        /\ (eitherCredsOrErr (cc s) -> err (cached (cc s')) = None))
    /\ (~ (HasKeys held = true /\ now < Expires held) ->
        cached (cc s') = {| creds := zeroCredentials; err := Some e |}
        /\ sigClosed (gotFirstCredsOrErr (cc s')) = true).
Proof.
  intros Hfresh Hr [_ Hl]. cbv zeta.
  pose proof (refresh_error_is_wrapped _ _ _ _ Hr) as Hw.
  unfold cachedIsFresh, validityCheckReading, eitherCredsOrErr in *.
  destruct s as [[ra fn ini iniD [got] gotD held sts clk] r o t l].
  project.
  unfold_poll. project.
  destruct (isNil (err held) && HasKeys (creds held)) eqn:Hcheck; project.
  - (* the freshness check read the clock *)
    cbn [andb] in Hfresh. rewrite Hfresh. project.
    rewrite (refresh_frame _ r (S r) o t l), Hr. project.
    apply andb_prop in Hcheck as [Hnil Hk]. rewrite Hk. project.
    unfold Time_Before.
    destruct (Z.ltb_spec (clk (S r)) (Expires (creds held))) as [Hv | Hv].
    + eexists. split; [reflexivity |]. project. split.
      * intros _. split; [reflexivity | split; [reflexivity |]].
        destruct (err held); [discriminate | reflexivity].
      * intros Hn. exfalso. apply Hn. split; [reflexivity | assumption].
    + subst gotD. destruct got; project;
        (eexists; split; [reflexivity |]); project;
        (split; [intros [_ Hlt]; lia | intros _; rewrite Hw; split; reflexivity]).
  - rewrite (refresh_frame _ r r o t l), Hr. project.
    destruct (HasKeys (creds held)) eqn:Hk; project.
    + unfold Time_Before.
      destruct (Z.ltb_spec (clk r) (Expires (creds held))) as [Hv | Hv].
      * eexists. split; [reflexivity |]. project. split.
        -- intros _. split; [reflexivity | split; [reflexivity |]].
           intros Hinv. destruct (err held); [| reflexivity].
           rewrite Hinv in Hk by discriminate. discriminate Hk.
        -- intros Hn. exfalso. apply Hn. split; [reflexivity | assumption].
      * subst gotD. destruct got; project;
          (eexists; split; [reflexivity |]); project;
          (split; [intros [_ Hlt]; lia | intros _; rewrite Hw; split; reflexivity]).
    + subst gotD. destruct got; project;
        (eexists; split; [reflexivity |]); project;
        (split; [intros [Hc _]; discriminate Hc
                | intros _; rewrite Hw; split; reflexivity]).
Qed.

Lemma failed_refresh_keeps_valid_credentials_witness :
  let s := sampleState (Some tokenFails)
             {| creds := sampleCreds (100 + 10 * Minute); err := None |}
             true 100 stsFails in
  exists s',
    refreshIfNeeded s = Ok (tt, s')
    /\ cc s' = cc s
    /\ Retrieve s' = Ok ((sampleCreds (100 + 10 * Minute), None), s').
Proof.
  cbv zeta.
  destruct (failed_refresh_keeps_valid_credentials
              (sampleState (Some tokenFails)
                 {| creds := sampleCreds (100 + 10 * Minute); err := None |}
                 true 100 stsFails)
              {| cc := cc (sampleState (Some tokenFails)
                             {| creds := sampleCreds (100 + 10 * Minute);
                                err := None |} true 100 stsFails);
                 clockReads := 0; oidcCalls := 1; stsCalls := 0; logged := [] |}
              zeroCredentials
              (traceError (errorsNew "auth unavailable")))
    as [s' [Hrun [Hkeep _]]].
  - reflexivity.
  - reflexivity.
  - split; reflexivity.
  - destruct Hkeep as [Hcc [Hret _]].
    + split; reflexivity.
    + exists s'. split; [exact Hrun | split; [exact Hcc | exact Hret]].
Defined.

(** C9 (as amended): after every successful refresh the cached result
    holds exactly the newly issued credentials with a nil error and the
    first-result latch is set; the expiry stored is the one the issuer
    reported, so it lies strictly after the clock's time at that moment
    whenever the issuer's does. *)
Theorem successful_refresh_stores_issued_credentials
    (s s1 : St) (c0 : Credentials) :
  cachedIsFresh s = false ->
  refresh s = Ok ((c0, None), s1) ->
  latchesConsistent (cc s) ->
  exists s',
    refreshIfNeeded s = Ok (tt, s')
    /\ cached (cc s') = {| creds := c0; err := None |}
    /\ sigClosed (gotFirstCredsOrErr (cc s')) = true
    /\ (clock (cc s') (clockReads s') < Expires c0 ->
        clock (cc s') (clockReads s') < Expires (creds (cached (cc s')))).
Proof.
  intros Hfresh Hr [_ Hl].
  unfold cachedIsFresh in *.
  destruct s as [[ra fn ini iniD [got] gotD held sts clk] r o t l].
  project. unfold_poll. project. subst gotD.
  destruct (isNil (err held) && HasKeys (creds held)) eqn:Hcheck; project.
  - cbn [andb] in Hfresh. rewrite Hfresh. project.
    rewrite (refresh_frame _ r (S r) o t l), Hr. project.
    destruct got; project;
      (eexists; split; [reflexivity |]); project;
      (split; [reflexivity | split; [reflexivity | intros H; exact H]]).
  - rewrite (refresh_frame _ r r o t l), Hr. project.
    destruct got; project;
      (eexists; split; [reflexivity |]); project;
      (split; [reflexivity | split; [reflexivity | intros H; exact H]]).
Qed.

Lemma successful_refresh_stores_issued_credentials_witness :
  let s := sampleState (Some tokenOk)
             {| creds := zeroCredentials; err := Some notYetInitialized |}
             false 100 (stsIssues (100 + Hour)) in
  exists s',
    refreshIfNeeded s = Ok (tt, s')
    /\ cached (cc s') = {| creds := sampleCreds (100 + Hour); err := None |}
    /\ 100 < Expires (creds (cached (cc s'))).
Proof.
  cbv zeta.
  destruct (successful_refresh_stores_issued_credentials
              (sampleState (Some tokenOk)
                 {| creds := zeroCredentials; err := Some notYetInitialized |}
                 false 100 (stsIssues (100 + Hour)))
              {| cc := cc (sampleState (Some tokenOk)
                             {| creds := zeroCredentials;
                                err := Some notYetInitialized |}
                             false 100 (stsIssues (100 + Hour)));
                 clockReads := 0; oidcCalls := 1; stsCalls := 1; logged := [] |}
              (sampleCreds (100 + Hour)))
    as [s' [Hrun [Hcached [_ Hfuture]]]].
  - reflexivity.
  - reflexivity.
  - split; reflexivity.
  - exists s'. split; [exact Hrun | split; [exact Hcached |]].
    assert (Hclock : clock (cc s') (clockReads s') = 100).
    { vm_compute in Hrun. injection Hrun as <-. reflexivity. }
    rewrite Hclock in Hfuture. apply Hfuture. reflexivity.
Defined.

(** *** Invariants of a running cache *)

Lemma newSystem_inv (region arn : string) (k : Clock) (sts : STSClient) :
  SysInv (newSystem region arn k sts).
Proof.
  unfold SysInv, wellFormed, latchesConsistent, eitherCredsOrErr,
    untouchedUntilFirstResult, loopConsistent. cbn.
  repeat split; auto; discriminate.
Qed.

Lemma published_wellFormed (c : credentialsCache) (coe : credsOrErr) :
  wellFormed c ->
  (err coe <> None -> creds coe = zeroCredentials) ->
  wellFormed (published c coe).
Proof.
  intros [[Hi _] _] Hcoe.
  unfold wellFormed, latchesConsistent, eitherCredsOrErr,
    untouchedUntilFirstResult. cbn.
  repeat split; auto. discriminate.
Qed.

(** The first poll always publishes: nothing cached can be fresh or hold
    keys while the latch is still open. *)
Lemma refreshIfNeeded_first_publishes (s s' : St) :
  wellFormed (cc s) ->
  sigClosed (gotFirstCredsOrErr (cc s)) = false ->
  refreshIfNeeded s = Ok (tt, s') ->
  exists coe, cc s' = published (cc s) coe
              /\ (err coe <> None -> creds coe = zeroCredentials).
Proof.
  intros [Hl [_ Hu]] Hopen H.
  destruct (refreshIfNeeded_effect _ _ Hl H) as [[_ Hno] | Hpub]; [| exact Hpub].
  exfalso. unfold cachedIsFresh in Hno. rewrite (Hu Hopen) in Hno.
  cbn in Hno. destruct Hno; discriminate.
Qed.

Lemma refreshIfNeeded_inv (s s' : St) :
  wellFormed (cc s) ->
  refreshIfNeeded s = Ok (tt, s') ->
  wellFormed (cc s')
  /\ initialized (cc s') = initialized (cc s)
  /\ (sigClosed (gotFirstCredsOrErr (cc s)) = true ->
      sigClosed (gotFirstCredsOrErr (cc s')) = true).
Proof.
  intros Hwf H.
  destruct (refreshIfNeeded_effect _ _ (proj1 Hwf) H)
    as [[Hsame _] | [coe [Hpub Hcoe]]].
  - rewrite Hsame. auto.
  - rewrite Hpub. split; [apply published_wellFormed; assumption |].
    split; [reflexivity | intros _; reflexivity].
Qed.

Lemma bind_inv {A B : Type} (m : M A) (k : A -> M B) (s s' : St) (b : B) :
  bind m k s = Ok (b, s') ->
  exists a s1, m s = Ok (a, s1) /\ k a s1 = Ok (b, s').
Proof.
  unfold bind. destruct (m s) as [[a s1] | |]; try discriminate.
  intros H. exists a, s1. split; [reflexivity | exact H].
Qed.

Lemma setGenerateOIDCTokenFn_effect
    (fn : option GenerateOIDCTokenFn) (s s' : St) (u : unit) :
  latchesConsistent (cc s) ->
  setGenerateOIDCTokenFn fn s = Ok (u, s') ->
  generateOIDCTokenFn (cc s') = fn
  /\ sigClosed (initialized (cc s')) = true
  /\ closeInitializedDone (cc s') = true
  /\ gotFirstCredsOrErr (cc s') = gotFirstCredsOrErr (cc s)
  /\ closeGotFirstCredsOrErrDone (cc s') = closeGotFirstCredsOrErrDone (cc s)
  /\ cached (cc s') = cached (cc s).
Proof.
  intros [Hi _] H. unfold_go.
  destruct s as [[ra f [ini] iniD got gotD held sts clk] r o t l].
  project. subst iniD.
  destruct ini; project; injection H as _ <-; project; repeat split.
Qed.

(** One step of a schedule keeps the invariant, and closes the
    first-result latch exactly when it is the first poll. *)
Lemma cache_step_inv (ev : Event) (sys sys' : System) :
  SysInv sys ->
  step ev sys = Ok sys' ->
  SysInv sys'
  /\ sigClosed (gotFirstCredsOrErr (cc (st sys')))
     = sigClosed (gotFirstCredsOrErr (cc (st sys))) || isFirstPoll ev.
Proof.
  intros [Hwf [Hloop Himp]] Hstep.
  destruct sys as [s cx lp]. destruct ev as [fn | | choice];
    cbn [step st ctx loop] in Hstep.
  - (* setGenerateOIDCTokenFn *)
    destruct (setGenerateOIDCTokenFn fn s) as [[u s1] | |] eqn:Hset;
      try discriminate.
    injection Hstep as <-.
    destruct (setGenerateOIDCTokenFn_effect _ _ _ _ (proj1 Hwf) Hset)
      as [_ [Hini [HiniD [Hgot [HgotD Hheld]]]]].
    destruct Hwf as [[_ Hl2] [He Hu]].
    unfold SysInv, wellFormed, latchesConsistent, eitherCredsOrErr,
      untouchedUntilFirstResult, loopConsistent in *.
    cbn [st ctx loop isFirstPoll] in *.
    rewrite Hgot, HgotD, Hheld, Hini, HiniD, orb_false_r.
    repeat split; auto.
    destruct lp; auto. destruct Hloop; auto.
  - (* cancellation *)
    injection Hstep as <-. cbn [st ctx loop isFirstPoll].
    rewrite orb_false_r. split; [| reflexivity].
    unfold SysInv, loopConsistent in *. cbn [st ctx loop] in *. auto.
  - (* run *)
    destruct (run choice cx lp s) as [[l1 s1] | |] eqn:Hrun; try discriminate.
    injection Hstep as <-. cbn [st ctx loop] in *.
    unfold loopConsistent in Hloop. cbn [st loop] in Hloop.
    destruct lp, choice; cbn [run isFirstPoll] in *;
      try discriminate; rewrite ?orb_false_r, ?orb_true_r.
    + (* first poll *)
      unfold bind at 1 in Hrun. unfold getCache in Hrun.
      destruct (recvReady (initialized (cc s))) eqn:Hready; [| discriminate].
      apply bind_inv in Hrun as [[] [s2 [Hpoll Hret]]].
      injection Hret as <- <-.
      destruct (refreshIfNeeded_first_publishes _ _ Hwf Hloop Hpoll)
        as [coe [Hpub Hcoe]].
      unfold SysInv, loopConsistent. cbn [st loop]. rewrite Hpub.
      split; [| reflexivity].
      split; [apply published_wellFormed; assumption |].
      cbn. auto.
    + (* cancelled before initialization *)
      destruct (recvReady cx); [| discriminate].
      unfold_go. injection Hrun as <- <-.
      unfold SysInv, loopConsistent. cbn [st loop cc]. auto.
    + (* a later poll *)
      apply bind_inv in Hrun as [[] [s2 [Hpoll Hret]]].
      injection Hret as <- <-.
      destruct (refreshIfNeeded_inv _ _ Hwf Hpoll) as [Hwf' [Hini Hmono]].
      destruct Hloop as [Hgot Hinit].
      unfold SysInv, loopConsistent. cbn [st loop].
      rewrite Hini, (Hmono Hgot), Hgot. auto.
    + (* cancelled while polling *)
      destruct (recvReady cx); [| discriminate].
      unfold_go. injection Hrun as <- <-.
      destruct Hloop as [Hgot Hinit].
      unfold SysInv, loopConsistent. cbn [st loop cc]. rewrite Hgot. auto.
Qed.

Lemma cache_exec_inv (evs : list Event) (sys sys' : System) :
  SysInv sys ->
  exec evs sys = Ok sys' ->
  SysInv sys'
  /\ sigClosed (gotFirstCredsOrErr (cc (st sys')))
     = sigClosed (gotFirstCredsOrErr (cc (st sys))) || existsb isFirstPoll evs.
Proof.
  revert sys. induction evs as [| ev rest IH]; intros sys Hinv Hexec.
  - injection Hexec as <-. cbn. rewrite orb_false_r. auto.
  - cbn in Hexec. destruct (step ev sys) as [sys1 | |] eqn:Hstep;
      try discriminate.
    destruct (cache_step_inv _ _ _ Hinv Hstep) as [Hinv1 Hlatch1].
    destruct (IH _ Hinv1 Hexec) as [Hinv' Hlatch'].
    split; [exact Hinv' |].
    rewrite Hlatch', Hlatch1. cbn. rewrite orb_assoc. reflexivity.
Qed.

Lemma cache_reachable_inv (sys : System) : Reachable sys -> SysInv sys.
Proof.
  intros [region [arn [k [sts [evs Hexec]]]]].
  exact (proj1 (cache_exec_inv _ _ _ (newSystem_inv region arn k sts) Hexec)).
Qed.

(** C3: on every schedule, as long as the first refresh attempt has not
    completed (no first poll in the schedule; in particular while the
    issuer has not been attached, or while the first-result latch is
    open), [Retrieve] returns: it yields zero-value credentials together
    with the "credential cache not yet initialized" error, never a nil
    error, and neither panics nor blocks. *)
Theorem retrieve_before_first_refresh
    (region arn : string) (k : Clock) (sts : STSClient)
    (evs : list Event) (sys : System) :
  exec evs (newSystem region arn k sts) = Ok sys ->
  existsb isFirstPoll evs = false
  \/ sigClosed (initialized (cc (st sys))) = false
  \/ sigClosed (gotFirstCredsOrErr (cc (st sys))) = false ->
  Retrieve (st sys)
  = Ok ((zeroCredentials,
         Some (errorsNew "ExternalCloudAudit: credential cache not yet initialized")),
        st sys).
Proof.
  intros Hexec Hbefore.
  destruct (cache_exec_inv _ _ _ (newSystem_inv region arn k sts) Hexec)
    as [[Hwf [_ Himp]] Hlatch].
  assert (Hopen : sigClosed (gotFirstCredsOrErr (cc (st sys))) = false).
  { destruct Hbefore as [Hnone | [Hinit | Hgot]].
    - rewrite Hlatch, Hnone. reflexivity.
    - destruct (sigClosed (gotFirstCredsOrErr (cc (st sys)))); [| reflexivity].
      rewrite Himp in Hinit by reflexivity. discriminate.
    - exact Hgot. }
  destruct Hwf as [_ [_ Hu]].
  unfold Retrieve, bind, getCache, ret. rewrite (Hu Hopen). reflexivity.
Qed.

Lemma retrieve_before_first_refresh_witness :
  exists sys,
    exec [EvSetGenerateOIDCTokenFn (Some tokenOk); EvCancel]
         (newSystem "eu-west-1" "arn" (clockAt 100) stsFails) = Ok sys
    /\ Retrieve (st sys)
       = Ok ((zeroCredentials,
              Some (errorsNew "ExternalCloudAudit: credential cache not yet initialized")),
             st sys).
Proof.
  eexists. split.
  - vm_compute. reflexivity.
  - apply (retrieve_before_first_refresh "eu-west-1" "arn" (clockAt 100) stsFails
             [EvSetGenerateOIDCTokenFn (Some tokenOk); EvCancel]).
    + vm_compute. reflexivity.
    + left. reflexivity.
Defined.

Lemma waitForFirstCredsOrErr_spec (cx : SignalChan) (s : St) :
  waitForFirstCredsOrErr cx s
  = if sigClosed cx || sigClosed (gotFirstCredsOrErr (cc s))
    then Ok (tt, s) else Blocked.
Proof.
  unfold_go. destruct (sigClosed cx || sigClosed (gotFirstCredsOrErr (cc s)));
    reflexivity.
Qed.

Lemma setCredsOrErr_publishes (coe : credsOrErr) (s : St) :
  latchesConsistent (cc s) ->
  setCredsOrErr coe s
  = Ok (tt, {| cc := published (cc s) coe; clockReads := clockReads s;
               oidcCalls := oidcCalls s; stsCalls := stsCalls s;
               logged := logged s |}).
Proof.
  intros [_ Hl]. unfold_go.
  destruct s as [[ra fn ini iniD [got] gotD held sts clk] r o t l].
  project. subst gotD. destruct got; reflexivity.
Qed.

(** A first poll (nothing published yet) whose refresh fails publishes the
    failure. *)
Lemma failed_first_poll (s s1 : St) (c0 : Credentials) (e : error) :
  cached (cc s) = {| creds := zeroCredentials; err := Some notYetInitialized |} ->
  refresh s = Ok ((c0, Some e), s1) ->
  latchesConsistent (cc s) ->
  exists s',
    refreshIfNeeded s = Ok (tt, s')
    /\ cached (cc s') = {| creds := zeroCredentials; err := Some e |}
    /\ sigClosed (gotFirstCredsOrErr (cc s')) = true.
Proof.
  intros Hheld Hr Hl.
  pose proof (refresh_error_is_wrapped _ _ _ _ Hr) as Hw.
  destruct s as [c r o t l]. cbn [cc] in *.
  unfold refreshIfNeeded, Retrieve, logf, getCache, bind, ret.
  cbn [cc clockReads oidcCalls stsCalls logged fst snd].
  rewrite Hheld. cbn [creds err isNil andb fst snd].
  rewrite (refresh_frame c r r o t l), Hr.
  cbn [cc clockReads oidcCalls stsCalls logged fst snd].
  change (HasKeys zeroCredentials) with false. cbv iota.
  rewrite Hw, setCredsOrErr_publishes by exact Hl.
  eexists. split; [reflexivity |]. split; reflexivity.
Qed.

(** C4: on every schedule, [waitForFirstCredsOrErr] returns exactly when
    its context is cancelled or the first refresh attempt has completed,
    and blocks otherwise; the first-result latch is closed exactly by that
    first attempt, whatever its outcome; every publication of a result
    leaves the latch closed without closing the channel a second time
    (which would panic); once closed the latch stays closed; and a first
    attempt whose refresh fails publishes the failure and lets every
    waiter return. *)
Theorem wait_returns_after_first_result
    (region arn : string) (k : Clock) (sts : STSClient)
    (evs : list Event) (sys : System) :
  exec evs (newSystem region arn k sts) = Ok sys ->
  (forall cx,
      (waitForFirstCredsOrErr cx (st sys) = Ok (tt, st sys)
       <-> sigClosed cx = true \/ existsb isFirstPoll evs = true)
      /\ (waitForFirstCredsOrErr cx (st sys) = Blocked
          <-> sigClosed cx = false /\ existsb isFirstPoll evs = false))
  /\ sigClosed (gotFirstCredsOrErr (cc (st sys))) = existsb isFirstPoll evs
  /\ (forall coe,
         exists s',
           setCredsOrErr coe (st sys) = Ok (tt, s')
           /\ cc s' = published (cc (st sys)) coe
           /\ sigClosed (gotFirstCredsOrErr (cc s')) = true)
  /\ (sigClosed (gotFirstCredsOrErr (cc (st sys))) = true ->
      closeGotFirstCredsOrErr (st sys) = Ok (tt, st sys))
  /\ (forall evs' sys',
         exec evs' sys = Ok sys' ->
         sigClosed (gotFirstCredsOrErr (cc (st sys))) = true ->
         sigClosed (gotFirstCredsOrErr (cc (st sys'))) = true)
  /\ (forall c0 e s1,
         loop sys = AwaitInitialized ->
         sigClosed (initialized (cc (st sys))) = true ->
         refresh (st sys) = Ok ((c0, Some e), s1) ->
         exists sys',
           step (EvRun TakeInitialized) sys = Ok sys'
           /\ cached (cc (st sys'))
              = {| creds := zeroCredentials; err := Some e |}
           /\ forall cx,
               waitForFirstCredsOrErr cx (st sys') = Ok (tt, st sys')).
Proof.
  intros Hexec.
  destruct (cache_exec_inv _ _ _ (newSystem_inv region arn k sts) Hexec)
    as [Hinv Hlatch].
  cbn in Hlatch.
  destruct Hinv as [Hwf [Hloop Himp]].
  split; [| split; [exact Hlatch | split; [| split; [| split]]]].
  - intros cx. rewrite waitForFirstCredsOrErr_spec, Hlatch.
    destruct (sigClosed cx), (existsb isFirstPoll evs); cbn;
      (split; split; intros H; try discriminate; try reflexivity; auto;
       try (destruct H; discriminate)).
  - intros coe. eexists.
    split; [apply setCredsOrErr_publishes; exact (proj1 Hwf) |].
    split; reflexivity.
  - intros Hclosed. destruct Hwf as [[_ Hl] _]. unfold_go.
    rewrite Hl, Hclosed. reflexivity.
  - intros evs' sys' Hexec' Hclosed.
    destruct (cache_exec_inv _ _ _ (conj Hwf (conj Hloop Himp)) Hexec') as [_ Hl'].
    rewrite Hl', Hclosed. reflexivity.
  - intros c0 e s1 Hl Hinit Hr.
    unfold loopConsistent in Hloop. rewrite Hl in Hloop.
    destruct (failed_first_poll _ _ _ _ (proj2 (proj2 Hwf) Hloop) Hr (proj1 Hwf))
      as [s' [Hpoll [Hcached Hgot]]].
    exists {| st := s'; ctx := ctx sys; loop := Polling |}.
    split; [| split].
    + destruct sys as [s cx lp]. cbn [st ctx loop] in *. subst lp.
      cbn [step run st ctx loop]. unfold bind at 1. unfold getCache.
      unfold recvReady. rewrite Hinit. unfold bind. rewrite Hpoll.
      reflexivity.
    + exact Hcached.
    + intros cx. cbn [st]. rewrite waitForFirstCredsOrErr_spec, Hgot.
      rewrite orb_true_r. reflexivity.
Qed.

Lemma wait_returns_after_first_result_witness :
  exists sys,
    exec [EvSetGenerateOIDCTokenFn (Some tokenFails); EvRun TakeInitialized]
         (newSystem "eu-west-1" "arn" (clockAt 100) stsFails) = Ok sys
    /\ waitForFirstCredsOrErr makeSignal (st sys) = Ok (tt, st sys)
    /\ sigClosed (gotFirstCredsOrErr (cc (st sys))) = true.
Proof.
  eexists. split.
  - vm_compute. reflexivity.
  - destruct (wait_returns_after_first_result
                "eu-west-1" "arn" (clockAt 100) stsFails
                [EvSetGenerateOIDCTokenFn (Some tokenFails); EvRun TakeInitialized]
                _ ltac:(vm_compute; reflexivity))
      as [Hwait [Hlatch _]].
    split.
    + apply (Hwait makeSignal). right. reflexivity.
    + exact Hlatch.
Defined.

(** Counterexample to C9 as stated: with a clock reading 100 and an issuer handing out
    credentials that expired at 50, the first poll of an attached cache
    succeeds and stores them. *)
Lemma stored_expiry_counterexample : ~ StoredExpiryInFuture.
Proof.
  intros Hclaim.
  assert (Hreach : Reachable
            {| st := sampleState (Some tokenOk)
                       {| creds := zeroCredentials; err := Some notYetInitialized |}
                       false 100 (stsIssues 50);
               ctx := makeSignal; loop := AwaitInitialized |}).
  { exists "eu-west-1"%string, "arn:aws:iam::123456789012:role/audit"%string,
      (clockAt 100), (stsIssues 50), [EvSetGenerateOIDCTokenFn (Some tokenOk)].
    reflexivity. }
  destruct (Hclaim _ (sampleCreds 50)
              {| cc := cc (sampleState (Some tokenOk)
                             {| creds := zeroCredentials;
                                err := Some notYetInitialized |}
                             false 100 (stsIssues 50));
                 clockReads := 0; oidcCalls := 1; stsCalls := 1; logged := [] |}
              {| cc := published
                         (cc (sampleState (Some tokenOk)
                                {| creds := zeroCredentials;
                                   err := Some notYetInitialized |}
                                false 100 (stsIssues 50)))
                         {| creds := sampleCreds 50; err := None |};
                 clockReads := 0; oidcCalls := 1; stsCalls := 1;
                 logged := [LogRefreshingCredentials; LogSuccessfullyRefreshed 50] |}
              Hreach)
    as [_ Hfuture]; try reflexivity.
  vm_compute in Hfuture. discriminate.
Qed.

End CacheProofs.

(** * Verification of the interval *)

Module IntervalProofs.
Import Interval.

Ltac unfold_interval :=
  unfold step, run, Reset, FireNow, Stop, receive, Next, onTimer, onReset,
    onFire, onSent, onDone, stopAndDrain, rearm, setLocals, setTimer,
    setSenders, setCh, setIval, setTask, observe, noneReady, callerMustPark,
    ready, sendReady, push, recvReady, closeSignal, Timer_Stop, Timer_Reset,
    Timer_expire, Timer_due, makeSync in *.

Ltac fields :=
  cbn [ival task times jitterCalls hist cfg ch reset fire closeOnce done
       status timer tick sending timerClock armed C capacity buf chClosed
       parkedSenders sigClosed fst snd andb orb negb isNil hd_error
       List.length app pred isStaged isSent isReceived b2n
       Duration FirstDuration Jitter Clock] in *.

(** Turn boolean tests and structured hypotheses into plain facts. *)
Ltac reflect_hyps :=
  repeat match goal with
         | H : (_ <? _)%nat = true |- _ => apply Nat.ltb_lt in H
         | H : (_ <? _)%nat = false |- _ => apply Nat.ltb_ge in H
         | H : _ && _ = true |- _ => apply andb_prop in H as [? ?]
         | H : _ && _ = false |- _ => apply andb_false_iff in H
         | H : _ || _ = false |- _ => apply orb_false_elim in H as [? ?]
         | H : negb _ = true |- _ => apply negb_true_iff in H
         | H : negb _ = false |- _ => apply negb_false_iff in H
         | H : _ \/ _ |- _ => destruct H
         | H : _ /\ _ |- _ => destruct H
         | H : exists _, _ |- _ => destruct H
         | H : _ :: _ = [] |- _ => discriminate H
         | H : [] = _ :: _ |- _ => discriminate H
         | H : _ :: _ = _ :: _ |- _ => injection H as ? ?
         | H : Some _ = None |- _ => discriminate H
         | H : None = Some _ |- _ => discriminate H
         | H : ?x <> ?x |- _ => exfalso; apply H; reflexivity
         end.

(** An armed timer whose wait is positive is not due yet. *)
Ltac not_due :=
  match goal with
  | |- (if ?b then _ else _) = _ =>
      replace b with false;
      [reflexivity | symmetry; apply Z.leb_gt; cbn [since wait]; lia]
  end.

(** Case analysis on membership in a history. *)
Ltac obs_cases :=
  repeat match goal with
         | H : False |- _ => destruct H
         | H : _ \/ _ |- _ => destruct H
         | H : @eq Obs (Staged _) (Staged _) |- _ => injection H as H; subst
         | H : @eq Obs (Sent _) (Sent _) |- _ => injection H as H; subst
         | H : @eq Obs (Received _) (Received _) |- _ => injection H as H; subst
         | H : @eq Obs _ _ |- _ => discriminate H
         | H : @eq time_Time ?x ?y |- _ => subst x || subst y
         end.

Lemma count_snoc (p : Obs -> bool) (h : list Obs) (o : Obs) :
  count p (h ++ [o]) = (count p h + b2n (p o))%nat.
Proof.
  unfold count. rewrite filter_app, length_app. cbn.
  destruct (p o); reflexivity.
Qed.

Lemma produced_snoc (h : list Obs) (o : Obs) :
  produced (h ++ [o])
  = produced h ++ (if isStaged o || isSent o then [o] else []).
Proof.
  unfold produced. rewrite filter_app. cbn.
  destruct (isStaged o || isSent o); reflexivity.
Qed.

Example sample_run_stages_and_sends :
  exists s0 s,
    New sampleConfig sampleTimes 0 = Ok s0
    /\ exec [EvPark; EvClock laterTimes; EvExpire; EvSelect CaseSend; EvRecv] s0
       = Ok s
    /\ hist s = [Staged (1000 + 2 * Second); Sent (1000 + 2 * Second);
                 Received (1000 + 2 * Second)].
Proof.
  do 2 eexists. split; [reflexivity |]. split; vm_compute; reflexivity.
Qed.

(** *** The invariant *)

Lemma New_inv (c : Config) (w : Times) (n : nat) (s : Sys) :
  New c w n = Ok s -> Inv s /\ cfg (ival s) = c /\ status (task s) = Running.
Proof.
  unfold New. destruct (Duration c <=? 0); [discriminate |].
  intros H. injection H as <-.
  unfold Inv, chanInv, timerInv, parkedInv, doneInv, countInv. cbn.
  repeat split; auto; try discriminate.
  left. split; [discriminate | reflexivity].
Qed.

Lemma interval_step_inv (ev : Event) (s s' : Sys) :
  Inv s -> step ev s = Ok s' -> Inv s'.
Proof.
  destruct s as [[cf [cap bf cl] [rs] [fs] once [dn]]
                 [stt [tc arm tC] tk snd] tms jc h].
  unfold Inv, chanInv, timerInv, parkedInv, doneInv, countInv.
  fields.
  intros [[Hcap [Hlen Hcl]]
            [Htimer [Hparked [[Honce [Hsenders Hexit]] [Hcount Hbuf]]]]] Hstep.
  subst cap cl once.
  destruct bf as [| b0 [| b1 bf]]; [ | | cbn in Hlen; lia]; fields.
  all: destruct ev; unfold_interval; fields.
  all: repeat split_match; try discriminate; try (injection Hstep as <-);
    fields; rewrite ?count_snoc in *; fields; reflect_hyps; subst; fields;
    solve [intuition (try lia; try congruence; try discriminate; eauto)].
Qed.

Lemma step_cfg (ev : Event) (s s' : Sys) :
  step ev s = Ok s' -> cfg (ival s') = cfg (ival s).
Proof.
  destruct s as [[cf c0 r0 f0 once dn] [stt tm tk snd] tms jc h].
  destruct ev; unfold_interval; fields; intros Hstep;
    repeat split_match; try discriminate; injection Hstep as <-; reflexivity.
Qed.

Lemma interval_exec_inv (evs : list Event) (s s' : Sys) :
  Inv s -> exec evs s = Ok s' -> Inv s' /\ cfg (ival s') = cfg (ival s).
Proof.
  revert s. induction evs as [| ev rest IH]; intros s Hinv Hexec.
  - injection Hexec as <-. auto.
  - cbn in Hexec. destruct (step ev s) as [s1 | |] eqn:Hstep; try discriminate.
    destruct (IH _ (interval_step_inv _ _ _ Hinv Hstep) Hexec) as [Hinv' Hcfg].
    split; [exact Hinv' |]. rewrite Hcfg. exact (step_cfg _ _ _ Hstep).
Qed.

Lemma interval_reachable_inv (s : Sys) : Reachable s -> Inv s.
Proof.
  intros [c [w [n [s0 [evs [Hnew Hexec]]]]]].
  exact (proj1 (interval_exec_inv _ _ _ (proj1 (New_inv _ _ _ _ Hnew)) Hexec)).
Qed.

(** *** Construction *)

(** C8: [New] panics exactly when the configured [Duration] is not
    positive (it never blocks, and never adjusts the duration); for every
    strictly positive [Duration] it returns an interval that keeps the
    configuration as given, with its timer armed, its output channel empty
    and open, and its background task started. *)
Theorem New_panics_iff_nonpositive_duration (c : Config) (w : Times) (n : nat) :
  (New c w n = Panic "non-positive interval for interval.New"
   <-> Duration c <= 0)
  /\ ((exists msg, New c w n = Panic msg) <-> Duration c <= 0)
  /\ New c w n <> Blocked
  /\ (0 < Duration c ->
      exists s,
        New c w n = Ok s
        /\ cfg (ival s) = c
        /\ status (task s) = Running
        /\ armed (timer (task s)) <> None
        /\ Next s = makeChan 1
        /\ sigClosed (done (ival s)) = false
        /\ Inv s).
Proof.
  destruct (Z.leb_spec (Duration c) 0) as [Hle | Hgt].
  - assert (Hp : New c w n = Panic "non-positive interval for interval.New").
    { unfold New. apply Z.leb_le in Hle. rewrite Hle. reflexivity. }
    rewrite Hp. repeat split; try (intros; assumption); try discriminate.
    + intros _. eexists. reflexivity.
    + intros Hpos. lia.
  - assert (Hok : exists s, New c w n = Ok s).
    { unfold New. apply Z.leb_gt in Hgt. rewrite Hgt. eexists. reflexivity. }
    destruct Hok as [s Hs]. rewrite Hs.
    split; [| split; [| split]].
    + split; [discriminate | lia].
    + split; [intros [msg H]; discriminate | lia].
    + discriminate.
    + intros _. exists s. split; [reflexivity |].
      destruct (New_inv _ _ _ _ Hs) as [Hinv [Hcfg Hrun]].
      split; [exact Hcfg | split; [exact Hrun |]].
      assert (Hmid : armed (timer (task s)) <> None
                     /\ Next s = makeChan 1
                     /\ sigClosed (done (ival s)) = false).
      { unfold New in Hs. destruct (Duration c <=? 0); [discriminate |].
        injection Hs as <-. cbn. repeat split. discriminate. }
      destruct Hmid as [Ha [Hn Hd]]. auto.
Qed.

Lemma New_panics_iff_nonpositive_duration_witness :
  New {| Duration := 0; FirstDuration := Second; Jitter := None; Clock := None |}
      sampleTimes 0
  = Panic "non-positive interval for interval.New"
  /\ exists s, New sampleConfig sampleTimes 0 = Ok s
               /\ status (task s) = Running.
Proof.
  split.
  - apply (proj1 (New_panics_iff_nonpositive_duration
                    {| Duration := 0; FirstDuration := Second; Jitter := None;
                       Clock := None |} sampleTimes 0)).
    cbn. lia.
  - destruct (proj2 (proj2 (proj2 (New_panics_iff_nonpositive_duration
                                     sampleConfig sampleTimes 0))))
      as [s [Hnew [_ [Hrun _]]]].
    + reflexivity.
    + exists s. split; [exact Hnew | exact Hrun].
Defined.

(** *** Waits *)

Lemma nextWait_spec (s : Sys) :
  nextWait s = match Jitter (cfg (ival s)) with
               | None => Duration (cfg (ival s))
               | Some jitter => jitter (jitterCalls s) (Duration (cfg (ival s)))
               end.
Proof.
  unfold nextWait, duration. destruct (Jitter (cfg (ival s))); reflexivity.
Qed.

(** A step in which [run] takes its timer, reset or fire arm leaves the
    timer armed for [i.duration()] from the clock's present time, its
    channel empty, and has consumed one draw of the jitter when there is
    one; any other step leaves the arming alone or disarms the timer, and
    draws nothing. *)
Lemma step_rearming (ev : Event) (s s' : Sys) :
  Inv s ->
  step ev s = Ok s' ->
  timerClock (timer (task s')) = timerClock (timer (task s))
  /\ if rearming ev s
     then armed (timer (task s'))
          = Some {| since := Clock_Now (timerClock (timer (task s))) (times s);
                    wait := nextWait s |}
          /\ C (timer (task s')) = []
          /\ jitterCalls s' = match Jitter (cfg (ival s)) with
                              | None => jitterCalls s
                              | Some _ => S (jitterCalls s)
                              end
     else (armed (timer (task s')) = armed (timer (task s))
           \/ armed (timer (task s')) = None)
          /\ jitterCalls s' = jitterCalls s.
Proof.
  unfold nextWait, duration, rearming.
  destruct s as [[[D FD j K] [cap bf cl] [rs] [fs] once [dn]]
                 [stt [tc arm tC] tk snd] tms jc h].
  unfold Inv, chanInv, timerInv, parkedInv, doneInv, countInv.
  fields.
  intros [[Hcap [Hlen Hcl]]
            [Htimer [Hparked [[Honce [Hsenders Hexit]] [Hcount Hbuf]]]]] Hstep.
  subst cap cl once.
  destruct ev as [w | | [] | | [] | | [] | | |]; unfold_interval;
    unfold duration in *; fields;
    repeat split_match; try discriminate; try (injection Hstep as <-);
    fields; reflect_hyps; subst; fields;
    repeat match goal with
           | H : Some _ = Some _ |- _ => injection H as <-
           | H : Parked = Parked -> _ |- _ => specialize (H eq_refl)
           end;
    reflect_hyps; subst; fields;
    try solve [intuition (try congruence; try discriminate; eauto)].
Qed.

Lemma exec_timerClock (evs : list Event) (s s' : Sys) :
  Inv s -> exec evs s = Ok s' ->
  timerClock (timer (task s')) = timerClock (timer (task s)).
Proof.
  revert s. induction evs as [| ev rest IH]; intros s Hinv Hexec.
  - injection Hexec as <-. reflexivity.
  - cbn in Hexec. destruct (step ev s) as [s1 | |] eqn:Hstep; try discriminate.
    rewrite (IH _ (interval_step_inv _ _ _ Hinv Hstep) Hexec).
    exact (proj1 (step_rearming _ _ _ Hinv Hstep)).
Qed.

(** C7 (as amended): the timer that [New] arms waits for exactly
    [FirstDuration], without a draw of the jitter, when [FirstDuration] is
    not zero; when it is zero the timer waits for a freshly drawn
    [Jitter(Duration)] (or [Duration] when no jitter is configured), and it
    is due at once exactly when that draw is not positive, which it never
    is without a jitter.  Afterwards, every step in which [run] takes its
    timer, reset or fire arm leaves the timer armed, from the configured
    clock's present time, for [Jitter(Duration)] with a new draw, or for
    exactly [Duration] when no jitter is configured, with its channel
    empty; every other step leaves the arming as it was or disarms the
    timer, and draws nothing. *)
Theorem waits_follow_configuration (c : Config) (w : Times) (n : nat) (s : Sys) :
  New c w n = Ok s ->
  let clock := match Clock c with
               | None => realClock
               | Some k => k
               end in
  (FirstDuration c <> 0 ->
   timer (task s) = NewTimer clock (FirstDuration c) w
   /\ jitterCalls s = n)
  /\ (FirstDuration c = 0 ->
      timer (task s)
      = NewTimer clock
          (match Jitter c with
           | None => Duration c
           | Some jitter => jitter n (Duration c)
           end) w
      /\ jitterCalls s = match Jitter c with
                         | None => n
                         | Some _ => S n
                         end
      /\ ready s CaseTimer = false
      /\ Timer_due (timer (task s)) (times s)
         = (match Jitter c with
            | None => Duration c
            | Some jitter => jitter n (Duration c)
            end <=? 0)
      /\ (Jitter c = None -> Timer_due (timer (task s)) (times s) = false)
      /\ (forall jitter,
             Jitter c = Some jitter ->
             0 < jitter n (Duration c) ->
             Timer_due (timer (task s)) (times s) = false))
  /\ (forall evs s1 ev s2,
         exec evs s = Ok s1 ->
         step ev s1 = Ok s2 ->
         timerClock (timer (task s2)) = clock
         /\ if rearming ev s1
            then armed (timer (task s2))
                 = Some {| since := Clock_Now clock (times s1);
                           wait := match Jitter c with
                                   | None => Duration c
                                   | Some jitter =>
                                       jitter (jitterCalls s1) (Duration c)
                                   end |}
                 /\ C (timer (task s2)) = []
                 /\ jitterCalls s2 = match Jitter c with
                                     | None => jitterCalls s1
                                     | Some _ => S (jitterCalls s1)
                                     end
            else (armed (timer (task s2)) = armed (timer (task s1))
                  \/ armed (timer (task s2)) = None)
                 /\ jitterCalls s2 = jitterCalls s1).
Proof.
  intros Hnew. cbv zeta.
  destruct (New_inv _ _ _ _ Hnew) as [Hinv [Hcfg _]].
  split; [| split].
  - intros Hfirst. unfold New in Hnew.
    destruct (Duration c <=? 0); [discriminate |].
    apply Z.eqb_neq in Hfirst. rewrite Hfirst in Hnew.
    injection Hnew as <-. split; reflexivity.
  - intros Hfirst. unfold New in Hnew.
    destruct (Z.leb_spec (Duration c) 0) as [| Hpos]; [discriminate |].
    rewrite Hfirst in Hnew. cbn [Z.eqb] in Hnew.
    injection Hnew as <-. unfold duration, Timer_due, NewTimer, ready.
    fields. destruct (Jitter c) as [jitter |]; fields.
    + split; [reflexivity |]. split; [reflexivity |]. split; [reflexivity |].
      split.
      { cbn [since wait].
        destruct (Z.leb_spec (jitter n (Duration c)) 0);
          [apply Z.leb_le | apply Z.leb_gt]; lia. }
      split; [discriminate |].
      intros j Hj Hdraw. injection Hj as <-. apply Z.leb_gt. cbn [since wait]. lia.
    + split; [reflexivity |]. split; [reflexivity |]. split; [reflexivity |].
      split.
      { cbn [since wait].
        destruct (Z.leb_spec (Duration c) 0);
          [apply Z.leb_le | apply Z.leb_gt]; lia. }
      split.
      * intros _. apply Z.leb_gt. cbn [since wait]. lia.
      * intros j Hj. discriminate.
  - intros evs s1 ev s2 Hexec Hstep.
    destruct (interval_exec_inv _ _ _ Hinv Hexec) as [Hinv1 Hcfg1].
    pose proof (exec_timerClock _ _ _ Hinv Hexec) as Hclk.
    assert (Hclk0 : timerClock (timer (task s))
                    = match Clock c with None => realClock | Some k => k end).
    { unfold New in Hnew. destruct (Duration c <=? 0); [discriminate |].
      injection Hnew as <-. reflexivity. }
    destruct (step_rearming _ _ _ Hinv1 Hstep) as [Hsame Harm].
    rewrite nextWait_spec, Hcfg1, Hcfg, Hclk, Hclk0 in Harm.
    split; [rewrite Hsame, Hclk; exact Hclk0 | exact Harm].
Qed.

Lemma waits_follow_configuration_witness :
  exists s,
    New jitteredConfig sampleTimes 3 = Ok s
    /\ timer (task s) = NewTimer realClock (10 * Second - 3) sampleTimes
    /\ Timer_due (timer (task s)) (times s) = false
    /\ exists s1 s2,
         exec [EvPark; EvClock {| wall := 5000 + 10 * Second;
                                  fake := 1000 + 10 * Second |}] s = Ok s1
         /\ step EvExpire s1 = Ok s2
         /\ armed (timer (task s2))
            = Some {| since := 5000 + 10 * Second; wait := 10 * Second - 4 |}
         /\ C (timer (task s2)) = [].
Proof.
  eexists. split; [reflexivity |].
  destruct (waits_follow_configuration jitteredConfig sampleTimes 3 _ eq_refl)
    as [_ [Hzero Hlater]].
  destruct (Hzero eq_refl) as [Htimer [_ [_ [_ [_ Hdue]]]]].
  split; [exact Htimer |].
  split; [apply (Hdue fullJitter); reflexivity |].
  eexists. eexists.
  split; [vm_compute; reflexivity |].
  split; [vm_compute; reflexivity |].
  destruct (Hlater [EvPark; EvClock {| wall := 5000 + 10 * Second;
                                       fake := 1000 + 10 * Second |}]
                   _ EvExpire _
                   ltac:(vm_compute; reflexivity)
                   ltac:(vm_compute; reflexivity))
    as [_ Harm].
  exact (conj (proj1 Harm) (proj1 (proj2 Harm))).
Defined.

(** Counterexample to C7 as stated: with [FirstDuration] zero and a jitter
    whose first draw is zero, the timer that [New] arms is due at
    construction, and a trigger is staged, sent and received without any
    time having passed. *)
Lemma first_wait_counterexample : ~ FirstWaitNeverImmediate.
Proof.
  intros Hclaim.
  destruct (New zeroJitterConfig sampleTimes 0) as [s | |] eqn:Hnew;
    try (vm_compute in Hnew; discriminate Hnew).
  pose proof (Hclaim _ _ _ _ Hnew eq_refl) as H.
  vm_compute in Hnew. injection Hnew as <-.
  vm_compute in H. discriminate H.
Qed.

Example zero_draw_fires_at_once :
  exists s0 s,
    New zeroJitterConfig sampleTimes 0 = Ok s0
    /\ exec [EvExpire; EvSelect CaseTimer; EvSelect CaseSend; EvRecv] s0 = Ok s
    /\ times s = sampleTimes
    /\ hist s = [Staged 5000; Sent 5000; Received 5000].
Proof.
  do 2 eexists. split; [reflexivity |].
  split; [vm_compute; reflexivity |]. split; vm_compute; reflexivity.
Qed.

(** *** Reset and FireNow *)

Lemma reachable_intro (c : Config) (w : Times) (n : nat) (s0 : Sys)
    (evs : list Event) (s : Sys) :
  New c w n = Ok s0 -> exec evs s0 = Ok s -> Reachable s.
Proof. intros H1 H2. exists c, w, n, s0, evs. split; assumption. Qed.

(** C6: whenever [run] observes a reset request (its [select] takes the
    reset arm, or a [Reset] caller meets it parked in the [select]), the
    step completes; a timer still armed is cancelled, and a timer that had
    already expired has its single pending firing drained, so the timer
    channel is left empty; the timer is armed for a fresh [i.duration()]
    from the present time; the staged tick is dropped and nothing is
    staged, sent or added to the output channel, so the next trigger can
    only come from a later expiry.  Once [done] is closed, a [Reset] call
    cannot rendezvous with [run] and never parks: it returns through its
    [done] arm and leaves everything as it was, and [run] never takes the
    reset arm again. *)
Theorem reset_restarts_the_wait (s : Sys) :
  Reachable s ->
  (forall ev,
      (ev = EvSelect CaseReset
       /\ status (task s) = Running
       /\ (0 < parkedSenders (reset (ival s)))%nat)
      \/ (ev = EvReset ViaSend /\ status (task s) = Parked) ->
      exists s',
        step ev s = Ok s'
        /\ armed (timer (task s'))
           = Some {| since := Clock_Now (timerClock (timer (task s))) (times s);
                     wait := nextWait s |}
        /\ C (timer (task s')) = []
        /\ (List.length (C (timer (task s))) <= 1)%nat
        /\ (armed (timer (task s)) = None
            <-> List.length (C (timer (task s))) = 1%nat)
        /\ sending (task s') = false
        /\ hist s' = hist s
        /\ Next s' = Next s
        /\ status (task s') = Running
        /\ ready s' CaseTimer = false
        /\ ready s' CaseSend = false
        /\ (0 < nextWait s -> step EvExpire s' = Blocked)
        /\ jitterCalls s' = snd (duration (ival s) (jitterCalls s)))
  /\ (sigClosed (done (ival s)) = true ->
      Reset ViaSend s = Blocked
      /\ callerMustPark s = false
      /\ Reset ViaDone s = Ok s
      /\ step (EvSelect CaseReset) s = Blocked).
Proof.
  intros Hreach. pose proof (interval_reachable_inv _ Hreach) as Hinv. clear Hreach.
  unfold nextWait.
  destruct s as [[[D FD j K] [cap bf cl] [rs] [fs] once [dn]]
                 [stt [tc arm tC] tk snd] tms jc h].
  unfold Inv, chanInv, timerInv, parkedInv, doneInv, countInv in Hinv.
  fields.
  destruct Hinv as [[Hcap [Hlen Hcl]]
                      [Htimer [Hparked [[Honce [Hsenders Hexit]] _]]]].
  subst cap cl once.
  split.
  - intros ev [[-> [-> Hrs]] | [-> ->]];
      unfold_interval; unfold duration; fields.
    + apply Nat.ltb_lt in Hrs. rewrite Hrs.
      destruct Htimer as [[Harm ->] | [-> [t ->]]]; fields.
      * destruct arm as [a |]; [| congruence]. fields.
        eexists. split; [reflexivity |]. fields.
        repeat split; auto; try discriminate.
        intros Hpos. destruct j; fields; not_due.
      * eexists. split; [reflexivity |]. fields.
        repeat split; auto.
        intros Hpos. destruct j; fields; not_due.
    + destruct Htimer as [[Harm ->] | [-> [t ->]]]; fields.
      * destruct arm as [a |]; [| congruence]. fields.
        eexists. split; [reflexivity |]. fields.
        repeat split; auto; try discriminate.
        intros Hpos. destruct j; fields; not_due.
      * destruct (Hparked eq_refl) as [_ [Hc _]]. discriminate Hc.
  - intros ->. destruct (Hsenders eq_refl) as [-> ->].
    unfold_interval; fields.
    destruct stt; repeat split; auto.
    destruct (Hparked eq_refl) as [Hd _]. discriminate Hd.
Qed.

Lemma reset_restarts_the_wait_witness :
  exists s0,
    New sampleConfig sampleTimes 0 = Ok s0
    /\ exists s,
        exec [EvClock laterTimes; EvExpire; EvSelect CaseTimer; EvResetPark] s0 = Ok s
        /\ sending (task s) = true
        /\ exists s',
            step (EvSelect CaseReset) s = Ok s'
            /\ sending (task s') = false
            /\ hist s' = hist s
            /\ armed (timer (task s'))
               = Some {| since := 1000 + 2 * Second; wait := 10 * Second |}.
Proof.
  eexists. split; [vm_compute; reflexivity |].
  eexists. split; [vm_compute; reflexivity |].
  split; [vm_compute; reflexivity |].
  destruct (reset_restarts_the_wait
              _ (reachable_intro sampleConfig sampleTimes 0 _
                   [EvClock laterTimes; EvExpire; EvSelect CaseTimer; EvResetPark] _
                   ltac:(vm_compute; reflexivity)
                   ltac:(vm_compute; reflexivity)))
    as [Hobs _].
  destruct (Hobs (EvSelect CaseReset))
    as [s' [Hstep [Harm [_ [_ [_ [Hsend [Hhist _]]]]]]]].
  { left. split; [reflexivity | split; [reflexivity | cbn; lia]]. }
  exists s'. split; [exact Hstep |].
  split; [exact Hsend |]. split; [exact Hhist |]. exact Harm.
Defined.

(** What [run] does when it observes a fire request: the tick it stages is
    the reading of [time.Now()], the wall clock. *)
Lemma fire_stages_wall_time (s : Sys) :
  Reachable s ->
  (forall ev,
      (ev = EvSelect CaseFire
       /\ status (task s) = Running
       /\ (0 < parkedSenders (fire (ival s)))%nat)
      \/ (ev = EvFireNow ViaSend /\ status (task s) = Parked) ->
      exists s',
        step ev s = Ok s'
        /\ tick (task s') = time_Now (times s)
        /\ sending (task s') = true
        /\ hist s' = hist s ++ [Staged (time_Now (times s))]
        /\ armed (timer (task s'))
           = Some {| since := Clock_Now (timerClock (timer (task s))) (times s);
                     wait := nextWait s |}
        /\ C (timer (task s')) = []
        /\ times s' = times s
        /\ status (task s') = Running
        /\ jitterCalls s' = snd (duration (ival s) (jitterCalls s)))
  /\ (sigClosed (done (ival s)) = true ->
      FireNow ViaSend s = Blocked
      /\ callerMustPark s = false
      /\ FireNow ViaDone s = Ok s
      /\ step (EvSelect CaseFire) s = Blocked).
Proof.
  intros Hreach. pose proof (interval_reachable_inv _ Hreach) as Hinv. clear Hreach.
  unfold nextWait.
  destruct s as [[[D FD j K] [cap bf cl] [rs] [fs] once [dn]]
                 [stt [tc arm tC] tk snd] tms jc h].
  unfold Inv, chanInv, timerInv, parkedInv, doneInv, countInv in Hinv.
  fields.
  destruct Hinv as [[Hcap [Hlen Hcl]]
                      [Htimer [Hparked [[Honce [Hsenders Hexit]] _]]]].
  subst cap cl once.
  split.
  - intros ev [[-> [-> Hfs]] | [-> ->]];
      unfold_interval; unfold duration; fields.
    + apply Nat.ltb_lt in Hfs. rewrite Hfs.
      destruct Htimer as [[Harm ->] | [-> [t ->]]]; fields.
      * destruct arm as [a |]; [| congruence]. fields.
        eexists. split; [reflexivity |]. fields. repeat split; auto.
      * eexists. split; [reflexivity |]. fields. repeat split; auto.
    + destruct Htimer as [[Harm ->] | [-> [t ->]]]; fields.
      * destruct arm as [a |]; [| congruence]. fields.
        eexists. split; [reflexivity |]. fields. repeat split; auto.
      * destruct (Hparked eq_refl) as [_ [Hc _]]. discriminate Hc.
  - intros ->. destruct (Hsenders eq_refl) as [-> ->].
    unfold_interval; fields.
    destruct stt; repeat split; auto.
    destruct (Hparked eq_refl) as [Hd _]. discriminate Hd.
Qed.

(** C10, evaluated: an interval configured with a fake clock that reads
    1000 while the wall clock reads 5000 observes a fire request; the tick
    it stages is 5000, the wall clock's time, not the configured clock's;
    the timer is armed again for the full period from the fake clock's
    time. *)
Theorem fire_now_stamps_wall_time_under_fake_clock :
  exists s0 s s',
    New sampleConfig sampleTimes 0 = Ok s0
    /\ exec [EvPark] s0 = Ok s
    /\ Clock (cfg (ival s)) = Some fakeClock
    /\ step (EvFireNow ViaSend) s = Ok s'
    /\ Clock_Now fakeClock (times s') = 1000
    /\ tick (task s') = 5000
    /\ hist s' = [Staged 5000]
    /\ armed (timer (task s')) = Some {| since := 1000; wait := 10 * Second |}.
Proof.
  do 3 eexists. split; [reflexivity |]. split; [reflexivity |].
  split; [reflexivity |]. split; [vm_compute; reflexivity |].
  repeat split.
Qed.

Lemma fire_ignores_configured_clock : ~ FireUsesConfiguredClock.
Proof.
  intros Hclaim.
  pose (s0 := {| ival := {| cfg := sampleConfig; ch := makeChan 1;
                            reset := makeSync; fire := makeSync;
                            closeOnce := false; done := makeSignal |};
                 task := {| status := Running;
                            timer := NewTimer fakeClock Second sampleTimes;
                            tick := zeroTime; sending := false |};
                 times := sampleTimes; jitterCalls := 0; hist := [] |}).
  assert (Hnew : New sampleConfig sampleTimes 0 = Ok s0) by reflexivity.
  pose (s := setLocals s0 Parked zeroTime false).
  assert (Hexec : exec [EvPark] s0 = Ok s) by reflexivity.
  destruct (proj1 (fire_stages_wall_time
                     s (reachable_intro _ _ _ _ _ _ Hnew Hexec))
                  (EvFireNow ViaSend))
    as [s' [Hstep [Htick [_ [_ [_ [_ [Htimes _]]]]]]]].
  { right. split; reflexivity. }
  pose proof (Hclaim s s' fakeClock
                (reachable_intro _ _ _ _ _ _ Hnew Hexec) eq_refl
                (or_intror Hstep)) as H.
  rewrite Htick, Htimes in H. discriminate H.
Qed.

(** *** Where triggers come from *)

Lemma step_provenance (ev : Event) (s s' : Sys) :
  Inv s -> Provenance s -> step ev s = Ok s' -> Provenance s'.
Proof.
  destruct s as [[cf [cap bf cl] [rs] [fs] once [dn]]
                 [stt [tc arm tC] tk snd] tms jc h].
  unfold Inv, chanInv, timerInv, parkedInv, doneInv, countInv, Provenance.
  fields.
  intros [[Hcap [Hlen Hcl]] _] [Hsent [Hstaged [Hrecv Hbuf]]] Hstep.
  subst cap cl.
  destruct bf as [| b0 [| b1 bf]]; [ | | cbn in Hlen; lia]; fields.
  all: destruct ev; unfold_interval; fields.
  all: repeat split_match; try discriminate; try (injection Hstep as <-);
    fields; reflect_hyps; subst;
    repeat split; intros; repeat rewrite in_app_iff in *; cbn [In] in *;
    obs_cases;
    try (intuition (try congruence; eauto); fail).
Qed.

Lemma reachable_provenance (s : Sys) : Reachable s -> Provenance s.
Proof.
  intros [c [w [n [s0 [evs [Hnew Hexec]]]]]].
  assert (H0 : Inv s0 /\ Provenance s0).
  { split; [exact (proj1 (New_inv _ _ _ _ Hnew)) |].
    unfold New in Hnew. destruct (Duration c <=? 0); [discriminate |].
    injection Hnew as <-. unfold Provenance. cbn.
    repeat split; intros; try discriminate; contradiction. }
  clear Hnew. revert s0 H0 Hexec.
  induction evs as [| ev rest IH]; intros s0 [Hinv Hprov] Hexec.
  - injection Hexec as <-. exact Hprov.
  - cbn in Hexec. destruct (step ev s0) as [s1 | |] eqn:Hstep; try discriminate.
    apply (IH s1); [| exact Hexec].
    split; [exact (interval_step_inv _ _ _ Hinv Hstep)
           | exact (step_provenance _ _ _ Hinv Hprov Hstep)].
Qed.

(** *** Stop *)

(** Once [run] has returned, nothing stages or sends a trigger any more. *)
Lemma step_after_exit (ev : Event) (s s' : Sys) :
  Inv s ->
  status (task s) = Exited ->
  step ev s = Ok s' ->
  status (task s') = Exited /\ produced (hist s') = produced (hist s).
Proof.
  destruct s as [[cf [cap bf cl] [rs] [fs] once [dn]]
                 [stt [tc arm tC] tk snd] tms jc h].
  unfold Inv, chanInv, timerInv, parkedInv, doneInv, countInv.
  fields.
  intros [_ [Htimer [_ [[Honce [_ Hexit]] _]]]] -> Hstep.
  fields. subst arm once. rewrite (Hexit eq_refl) in *.
  destruct ev; unfold_interval; fields;
    repeat split_match; try discriminate; injection Hstep as <-; fields;
    rewrite ?produced_snoc; fields; rewrite ?app_nil_r; split; reflexivity.
Qed.

Lemma exec_after_exit (evs : list Event) (s s' : Sys) :
  Inv s ->
  status (task s) = Exited ->
  exec evs s = Ok s' ->
  status (task s') = Exited /\ produced (hist s') = produced (hist s).
Proof.
  revert s. induction evs as [| ev rest IH]; intros s Hinv Hexit Hexec.
  - injection Hexec as <-. auto.
  - cbn in Hexec. destruct (step ev s) as [s1 | |] eqn:Hstep; try discriminate.
    destruct (step_after_exit _ _ _ Hinv Hexit Hstep) as [Hexit1 Hprod1].
    destruct (IH _ (interval_step_inv _ _ _ Hinv Hstep) Hexit1 Hexec) as [Hexit' Hprod'].
    split; [exact Hexit' | congruence].
Qed.

(** Counterexample to C5 as stated: the timer expires and wakes [run] from
    its [select]; before [run] is back at the [select], [Stop()] is called
    and returns; the [select] then finds both its send arm and its [done]
    arm ready and takes the send arm, handing a trigger to the output
    channel although [done] is closed. *)
Lemma stop_race_counterexample : ~ StopHaltsAtOnce.
Proof.
  intros Hclaim.
  pose (s0 := {| ival := {| cfg := sampleConfig; ch := makeChan 1;
                            reset := makeSync; fire := makeSync;
                            closeOnce := false; done := makeSignal |};
                 task := {| status := Running;
                            timer := NewTimer fakeClock Second sampleTimes;
                            tick := zeroTime; sending := false |};
                 times := sampleTimes; jitterCalls := 0; hist := [] |}).
  assert (Hnew : New sampleConfig sampleTimes 0 = Ok s0) by reflexivity.
  destruct (exec [EvPark; EvClock laterTimes; EvExpire; EvStop] s0)
    as [s1 | |] eqn:H1;
    try (vm_compute in H1; discriminate H1).
  destruct (exec [EvSelect CaseSend] s1) as [s2 | |] eqn:H2;
    try (vm_compute in H1; injection H1 as <-; vm_compute in H2;
         discriminate H2).
  assert (Hdone : sigClosed (done (ival s1)) = true).
  { vm_compute in H1. injection H1 as <-. reflexivity. }
  pose proof (Hclaim _ _ _ _ _ _ _ _ Hnew H1 Hdone H2) as H.
  vm_compute in H1. injection H1 as <-.
  vm_compute in H2. injection H2 as <-.
  vm_compute in H. discriminate H.
Qed.

(** The same can happen to a [run] that has not reached its first
    [select] when the timer expires: after [Stop()] it may still take the
    timer arm, staging a trigger, and then the send arm. *)
Example trigger_staged_and_sent_after_stop :
  exists s0,
    New sampleConfig sampleTimes 0 = Ok s0
    /\ exists s1,
        exec [EvClock laterTimes; EvExpire; EvStop] s0 = Ok s1
        /\ sigClosed (done (ival s1)) = true
        /\ hist s1 = []
        /\ exists s2,
            exec [EvSelect CaseTimer; EvSelect CaseSend] s1 = Ok s2
            /\ hist s2 = [Staged (1000 + 2 * Second); Sent (1000 + 2 * Second)].
Proof.
  eexists. split; [vm_compute; reflexivity |].
  eexists. split; [vm_compute; reflexivity |].
  split; [reflexivity |]. split; [reflexivity |].
  eexists. split; vm_compute; reflexivity.
Qed.

(** C5 (as amended): at every point of an interval's life its output
    channel has capacity one, is open and buffers at most one trigger;
    every trigger sent was staged before and every trigger received or
    buffered was sent before, each at most once (by count and by value);
    [Stop] never panics, closes [done], is idempotent and stages or sends
    nothing itself; a [run] parked in its [select] when [Stop] is called
    returns at once through its [done] arm, its timer stopped, whereas a
    [run] that is not parked is left where it is, and may still take
    another ready arm before the [done] arm; the callers parked in [Reset]
    or [FireNow] are released; a buffered trigger can be received whatever
    the state of [done]; once [done] is closed, [run] has returned or is
    running with its [done] arm ready; and once [run] has returned no
    schedule stages or sends a trigger. *)
Theorem triggers_are_single_and_cease_after_exit (s : Sys) :
  Reachable s ->
  (capacity (Next s) = 1%nat
   /\ (List.length (buf (Next s)) <= 1)%nat
   /\ chClosed (Next s) = false)
  /\ ((count isSent (hist s) + b2n (sending (task s))
       <= count isStaged (hist s))%nat
      /\ (List.length (buf (Next s)) + count isReceived (hist s)
          = count isSent (hist s))%nat)
  /\ Provenance s
  /\ (exists s1,
         Stop s = Ok s1
         /\ Stop s1 = Ok s1
         /\ sigClosed (done (ival s1)) = true
         /\ hist s1 = hist s
         /\ Next s1 = Next s
         /\ (status (task s) = Parked ->
             status (task s1) = Exited
             /\ armed (timer (task s1)) = None
             /\ forall c, step (EvSelect c) s1 = Blocked)
         /\ (status (task s) <> Parked -> task s1 = task s)
         /\ parkedSenders (reset (ival s1)) = 0%nat
         /\ parkedSenders (fire (ival s1)) = 0%nat)
  /\ (forall v rest,
         buf (Next s) = v :: rest ->
         exists s',
           receive s = Ok s'
           /\ In (Received v) (hist s')
           /\ count isReceived (hist s') = S (count isReceived (hist s)))
  /\ (sigClosed (done (ival s)) = true ->
      status (task s) = Exited
      \/ (status (task s) = Running
          /\ exists s',
              step (EvSelect CaseDone) s = Ok s'
              /\ status (task s') = Exited
              /\ hist s' = hist s))
  /\ (status (task s) = Exited ->
      forall evs s',
        exec evs s = Ok s' ->
        status (task s') = Exited
        /\ produced (hist s') = produced (hist s)).
Proof.
  intros Hreach. pose proof (interval_reachable_inv _ Hreach) as Hinv.
  split; [exact (proj1 Hinv) |].
  split; [exact (proj2 (proj2 (proj2 (proj2 Hinv)))) |].
  split; [exact (reachable_provenance _ Hreach) |]. clear Hreach.
  split; [| split; [| split]].
  - destruct s as [[cf [cap bf cl] [rs] [fs] once [dn]]
                   [stt [tc arm tC] tk snd] tms jc h].
    unfold Inv, chanInv, timerInv, parkedInv, doneInv, countInv in Hinv.
    fields. destruct Hinv as [_ [_ [Hparked [[Honce [Hsenders _]] _]]]].
    subst once.
    unfold_interval; fields.
    destruct dn; fields.
    + destruct (Hsenders eq_refl) as [-> ->].
      eexists. do 5 (split; [reflexivity |]).
      split; [| repeat split].
      intros ->. destruct (Hparked eq_refl) as [Hd _]. discriminate Hd.
    + destruct stt; fields; eexists; (do 5 (split; [reflexivity |]));
        fields; (split; [| split; [| split; reflexivity]]);
        try (intros H; discriminate H);
        try (intros _; reflexivity);
        try (intros H; exfalso; apply H; reflexivity).
      intros _. split; [reflexivity |]. split; [reflexivity |].
      intros []; reflexivity.
  - intros v rest Hbuf.
    destruct s as [[cf [cap bf cl] [rs] [fs] once [dn]]
                   [stt [tc arm tC] tk snd] tms jc h].
    unfold_interval; fields. subst bf.
    destruct stt; fields; try destruct snd; fields;
      eexists; (split; [reflexivity |]); fields;
      rewrite ?count_snoc, ?in_app_iff; fields;
      (split; [cbn; tauto | lia]).
  - intros Hdone.
    destruct s as [[cf [cap bf cl] [rs] [fs] once [dn]]
                   [stt [tc arm tC] tk snd] tms jc h].
    unfold Inv, chanInv, timerInv, parkedInv, doneInv, countInv in Hinv.
    fields. subst dn. destruct Hinv as [_ [_ [Hparked _]]].
    destruct stt.
    + right. split; [reflexivity |]. unfold_interval; fields.
      eexists. repeat split.
    + destruct (Hparked eq_refl) as [Hd _]. discriminate Hd.
    + left. reflexivity.
  - intros Hexit evs s' Hexec. exact (exec_after_exit _ _ _ Hinv Hexit Hexec).
Qed.

Lemma triggers_are_single_and_cease_after_exit_witness :
  exists s0,
    New sampleConfig sampleTimes 0 = Ok s0
    /\ exists s,
        exec [EvClock laterTimes; EvExpire; EvSelect CaseTimer;
              EvSelect CaseSend; EvStop; EvSelect CaseDone] s0 = Ok s
        /\ buf (Next s) = [1000 + 2 * Second]
        /\ status (task s) = Exited
        /\ exists s',
            exec [EvFireNow ViaDone; EvRecv; EvStop] s = Ok s'
            /\ produced (hist s') = produced (hist s).
Proof.
  eexists. split; [vm_compute; reflexivity |].
  eexists. split; [vm_compute; reflexivity |].
  match goal with
  | |- buf (Next ?x) = _ /\ _ => assert (Hreach : Reachable x)
  end.
  { apply (reachable_intro sampleConfig sampleTimes 0 _
             [EvClock laterTimes; EvExpire; EvSelect CaseTimer;
              EvSelect CaseSend; EvStop; EvSelect CaseDone] _
             ltac:(vm_compute; reflexivity) ltac:(vm_compute; reflexivity)). }
  split; [vm_compute; reflexivity |]. split; [vm_compute; reflexivity |].
  eexists. split; [vm_compute; reflexivity |].
  destruct (triggers_are_single_and_cease_after_exit _ Hreach)
    as [_ [_ [_ [_ [_ [_ Hafter]]]]]].
  apply (Hafter ltac:(vm_compute; reflexivity)
           [EvFireNow ViaDone; EvRecv; EvStop]).
  vm_compute. reflexivity.
Defined.

End IntervalProofs.

(** * Further properties of the credentials cache *)

Module CacheSchedules.
Import ExternalCloudAudit CacheProofs.

(** *** What a provider hands out *)

Lemma traceWrap_keeps_errors (e : error) : traceWrap (Some e) <> None.
Proof. destruct e; discriminate. Qed.

(** X5: at every point of every schedule, the provider of a cache returns
    without panicking, and never returns credentials together with an
    error: with an error the credentials are the zero value (no keys).  A
    nil error is returned only after the first poll has published a result.
    The v1 adapter returns an error exactly when the provider does, then
    with the zero [credentials.Value]; otherwise it carries the keys and the
    session token over unchanged and names the credentials' source as the
    provider. *)
Theorem provider_returns_credentials_or_an_error (sys : System) :
  Reachable sys ->
  exists c e,
    providerRetrieve (Some sys) = Ok (c, e)
    /\ (e <> None -> c = zeroCredentials /\ HasKeys c = false)
    /\ (e = None -> sigClosed (gotFirstCredsOrErr (cc (st sys))) = true)
    /\ exists v e1,
         v1Adapter_RetrieveWithContext {| adapterCC := Some sys |} = Ok (v, e1)
         /\ (e1 = None <-> e = None)
         /\ (e1 <> None -> v = zeroValue)
         /\ (e1 = None ->
             credentials.AccessKeyID v = AccessKeyID c
             /\ credentials.SecretAccessKey v = SecretAccessKey c
             /\ credentials.SessionToken v = SessionToken c
             /\ credentials.ProviderName v = Source c).
Proof.
  intros Hr. destruct (cache_reachable_inv _ Hr) as [[_ [He Hu]] _].
  unfold eitherCredsOrErr, untouchedUntilFirstResult in *.
  exists (creds (cached (cc (st sys)))), (err (cached (cc (st sys)))).
  split; [reflexivity |].
  split; [intros Hne; rewrite (He Hne); split; reflexivity |].
  split.
  { intros Hnone.
    destruct (sigClosed (gotFirstCredsOrErr (cc (st sys)))) eqn:Hgot; auto.
    rewrite (Hu eq_refl) in Hnone. discriminate. }
  unfold v1Adapter_RetrieveWithContext. cbn.
  destruct (err (cached (cc (st sys)))) as [e|] eqn:Herr.
  - exists zeroValue, (traceWrap (Some e)). split; [reflexivity |].
    split; [split; intros H; [exfalso; exact (traceWrap_keeps_errors e H)
                             | discriminate] |].
    split; [reflexivity |].
    intros H. exfalso. exact (traceWrap_keeps_errors e H).
  - eexists _, None. split; [reflexivity |].
    split; [tauto |]. split; [congruence |]. intros _. cbn. auto.
Qed.

Lemma provider_returns_credentials_or_an_error_witness :
  exists c e,
    providerRetrieve
      (Some (newSystem "eu-west-1" "arn" (clockAt 0) (stsIssues 10))) = Ok (c, e)
    /\ (e <> None -> c = zeroCredentials /\ HasKeys c = false).
Proof.
  destruct (provider_returns_credentials_or_an_error
              (newSystem "eu-west-1" "arn" (clockAt 0) (stsIssues 10)))
    as [c [e [H1 [H2 _]]]].
  - exists "eu-west-1"%string, "arn"%string, (clockAt 0), (stsIssues 10), [].
    reflexivity.
  - exists c, e. split; assumption.
Defined.

(** *** What a poll asks of the issuer *)

(** X6: a poll never blocks, and panics only when a refresh is due and the
    token source attached is nil.  When it returns it has called the token
    source at most once and STS at most once, and STS only after the token
    source returned a token: when the token source fails, STS is not
    contacted.  It has read the clock at most three times, and has left the
    role, the STS client, the clock, the token source and the [initialized]
    latch as they were; the first-result latch is never reopened. *)
Theorem poll_contacts_issuer_at_most_once (s : St) :
  latchesConsistent (cc s) ->
  match refreshIfNeeded s with
  | Ok (_, s') =>
      (oidcCalls s' = oidcCalls s \/ oidcCalls s' = S (oidcCalls s))
      /\ (stsCalls s' = stsCalls s
          \/ (stsCalls s' = S (stsCalls s) /\ oidcCalls s' = S (oidcCalls s)
              /\ nextTokenFails s = false))
      /\ (clockReads s <= clockReads s' <= clockReads s + 3)%nat
      /\ roleARN (cc s') = roleARN (cc s)
      /\ stsClient (cc s') = stsClient (cc s)
      /\ clock (cc s') = clock (cc s)
      /\ generateOIDCTokenFn (cc s') = generateOIDCTokenFn (cc s)
      /\ initialized (cc s') = initialized (cc s)
      /\ (sigClosed (gotFirstCredsOrErr (cc s)) = true ->
          sigClosed (gotFirstCredsOrErr (cc s')) = true)
  | Panic _ => generateOIDCTokenFn (cc s) = None /\ cachedIsFresh s = false
  | Blocked => False
  end.
Proof.
  intros [_ Hl]. unfold nextTokenFails, cachedIsFresh. unfold_go.
  destruct s as [[ra fn ini iniD [got] gotD held sts clk] r o t l].
  crunch; subst; try discriminate; project;
    repeat split; auto; try lia;
    try (right; repeat split; auto; fail);
    try (left; reflexivity);
    try (intros; congruence).
Qed.

Lemma poll_contacts_issuer_at_most_once_witness :
  let s := sampleState (Some tokenFails)
             {| creds := zeroCredentials; err := Some notYetInitialized |}
             false 0 (stsIssues 10) in
  exists s', refreshIfNeeded s = Ok (tt, s') /\ stsCalls s' = stsCalls s.
Proof.
  cbv zeta.
  pose proof (poll_contacts_issuer_at_most_once
                (sampleState (Some tokenFails)
                   {| creds := zeroCredentials; err := Some notYetInitialized |}
                   false 0 (stsIssues 10))
                (conj eq_refl eq_refl)) as P.
  destruct (refreshIfNeeded _) as [[[] s'] | |] eqn:E in P.
  - exists s'. split; [exact E |].
    destruct P as [_ [[P | [_ [_ P]]] _]]; [exact P | discriminate P].
  - vm_compute in E. discriminate E.
  - destruct P.
Defined.

(** X7: a poll that finds a refresh due, with a token source attached that
    returns a token, presents that token to STS once, for the role the
    cache was made for, asking for a lifetime of one hour with a timeout of
    thirty seconds.  If STS answers without error the credentials it
    returned are stored as they are, with a nil error; if it fails the poll
    either keeps the cache as it was (the cached credentials have keys and
    are not yet expired) or stores the wrapped error with zero
    credentials. *)
Theorem due_poll_presents_issued_token_to_sts
    (s : St) (f : GenerateOIDCTokenFn) :
  latchesConsistent (cc s) ->
  cachedIsFresh s = false ->
  generateOIDCTokenFn (cc s) = Some f ->
  snd (f (oidcCalls s)) = None ->
  let issued := stsClient (cc s) (stsCalls s) (roleARN (cc s))
                          (fst (f (oidcCalls s))) (1 * Hour) (30 * Second) in
  exists s',
    refreshIfNeeded s = Ok (tt, s')
    /\ oidcCalls s' = S (oidcCalls s)
    /\ stsCalls s' = S (stsCalls s)
    /\ (snd issued = None ->
        cached (cc s') = {| creds := fst issued; err := None |}
        /\ sigClosed (gotFirstCredsOrErr (cc s')) = true)
    /\ (snd issued <> None ->
        (cc s' = cc s
         /\ HasKeys (creds (cached (cc s))) = true
         /\ Time_Before (clock (cc s) (validityCheckReading s))
                        (Expires (creds (cached (cc s)))) = true)
        \/ (cached (cc s') = {| creds := zeroCredentials;
                                err := traceWrap (snd issued) |}
            /\ sigClosed (gotFirstCredsOrErr (cc s')) = true)).
Proof.
  intros [_ Hl] Hfresh Hfn Htok. cbv zeta.
  change (1 * Hour) with TokenLifetime.
  change (30 * Second) with retrieveTimeout.
  unfold cachedIsFresh, validityCheckReading in *. unfold_go.
  destruct s as [[ra fn ini iniD [got] gotD held sts clk] r o t l].
  project. subst fn. project. rewrite ?Htok.
  destruct (sts t ra (fst (f o)) TokenLifetime retrieveTimeout)
    as [c0 [e0 |]] eqn:Hsts.
  - (* STS failed *)
    assert (Hw : traceWrap (traceWrap (Some e0)) = traceWrap (Some e0))
      by (destruct e0; reflexivity).
    crunch; subst; try discriminate; rewrite ?Htok, ?Hsts in *;
      try discriminate; project;
      try (exfalso; eapply traceWrap_keeps_errors; eassumption);
      (eexists; (split; [reflexivity |]); project;
       split; [reflexivity |]; split; [reflexivity |];
       split; [intros; discriminate |]; intros _);
      try (left; repeat split; auto; fail);
      right; (split; [| reflexivity]);
      match goal with
      | H : traceWrap (Some e0) = Some ?e |- _ =>
          rewrite <- H, Hw; reflexivity
      end.
  - (* STS issued credentials *)
    crunch; subst; try discriminate; rewrite ?Htok, ?Hsts in *;
      try discriminate; project;
      eexists; (split; [reflexivity |]); project;
      (split; [reflexivity |]); (split; [reflexivity |]);
      (split; [intros _; split; reflexivity | intros H; congruence]).
Qed.

Lemma due_poll_presents_issued_token_to_sts_witness :
  exists s',
    refreshIfNeeded
      (sampleState (Some tokenOk)
         {| creds := zeroCredentials; err := Some notYetInitialized |}
         false 0 (stsIssues (2 * Hour))) = Ok (tt, s')
    /\ cached (cc s') = {| creds := sampleCreds (2 * Hour); err := None |}.
Proof.
  destruct (due_poll_presents_issued_token_to_sts
              (sampleState (Some tokenOk)
                 {| creds := zeroCredentials; err := Some notYetInitialized |}
                 false 0 (stsIssues (2 * Hour)))
              tokenOk
              (conj eq_refl eq_refl) eq_refl eq_refl eq_refl)
    as [s' [Hrun [_ [_ [Hok _]]]]].
  exists s'. split; [exact Hrun | exact (proj1 (Hok eq_refl))].
Defined.

(** *** The life of the goroutine *)

Lemma setGenerateOIDCTokenFn_returns
    (fn : option GenerateOIDCTokenFn) (s : St) :
  latchesConsistent (cc s) ->
  exists s', setGenerateOIDCTokenFn fn s = Ok (tt, s')
             /\ clockReads s' = clockReads s /\ oidcCalls s' = oidcCalls s
             /\ stsCalls s' = stsCalls s /\ logged s' = logged s
             /\ roleARN (cc s') = roleARN (cc s)
             /\ stsClient (cc s') = stsClient (cc s)
             /\ clock (cc s') = clock (cc s).
Proof.
  intros [Hi _]. unfold_go.
  destruct s as [[ra f [ini] iniD got gotD held sts clk] r o t l].
  project. subst iniD.
  destruct ini; project; eexists; (split; [reflexivity |]); project;
    repeat split.
Qed.

(** The goroutine returns only through a [ctx.Done()] arm. *)
Lemma step_returned_cancelled (ev : Event) (sys sys' : System) :
  (loop sys = Returned -> sigClosed (ctx sys) = true) ->
  step ev sys = Ok sys' ->
  loop sys' = Returned -> sigClosed (ctx sys') = true.
Proof.
  intros Hinv Hstep. destruct sys as [s cx lp]. cbn [loop ctx] in *.
  destruct ev as [fn | | choice]; cbn [step st ctx loop] in Hstep.
  - destruct (setGenerateOIDCTokenFn fn s) as [[u s1] | |]; try discriminate.
    injection Hstep as <-. exact Hinv.
  - injection Hstep as <-. reflexivity.
  - destruct (run choice cx lp s) as [[l1 s1] | |] eqn:Hrun; try discriminate.
    injection Hstep as <-. cbn [loop ctx]. intros ->.
    destruct lp, choice; cbn [run] in Hrun; try discriminate;
      unfold bind, getCache, ret, logf, recvReady in Hrun;
      repeat split_match; try discriminate; auto.
Qed.

Lemma exec_returned_cancelled (evs : list Event) (sys sys' : System) :
  (loop sys = Returned -> sigClosed (ctx sys) = true) ->
  exec evs sys = Ok sys' ->
  loop sys' = Returned -> sigClosed (ctx sys') = true.
Proof.
  revert sys. induction evs as [| ev rest IH]; intros sys Hinv Hexec.
  - injection Hexec as <-. exact Hinv.
  - cbn in Hexec. destruct (step ev sys) as [sys1 | |] eqn:Hstep;
      try discriminate.
    exact (IH _ (step_returned_cancelled _ _ _ Hinv Hstep) Hexec).
Qed.

(** After [run] has returned, a step changes nothing but the token source,
    the [initialized] latch and the context. *)
Lemma step_after_return (ev : Event) (sys : System) :
  SysInv sys ->
  loop sys = Returned ->
  match step ev sys with
  | Ok sys' =>
      SysInv sys' /\ loop sys' = Returned
      /\ cached (cc (st sys')) = cached (cc (st sys))
      /\ gotFirstCredsOrErr (cc (st sys')) = gotFirstCredsOrErr (cc (st sys))
      /\ oidcCalls (st sys') = oidcCalls (st sys)
      /\ stsCalls (st sys') = stsCalls (st sys)
      /\ clockReads (st sys') = clockReads (st sys)
      /\ logged (st sys') = logged (st sys)
  | Panic _ => False
  | Blocked => exists choice, ev = EvRun choice
  end.
Proof.
  intros Hinv Hret.
  destruct (step ev sys) as [sys' | |] eqn:Hstep.
  - split; [exact (proj1 (cache_step_inv _ _ _ Hinv Hstep)) |].
    destruct sys as [s cx lp]. cbn [loop st] in *. subst lp.
    destruct ev as [fn | | choice]; cbn [step st ctx loop] in Hstep.
    + destruct (setGenerateOIDCTokenFn_returns fn s (proj1 (proj1 Hinv)))
        as [s1 [Hset [Hr [Ho [Ht [Hlog _]]]]]].
      destruct (setGenerateOIDCTokenFn_effect _ _ _ _ (proj1 (proj1 Hinv)) Hset)
        as [_ [_ [_ [Hgot [_ Hheld]]]]].
      rewrite Hset in Hstep. injection Hstep as <-. cbn [st loop].
      repeat split; assumption.
    + injection Hstep as <-. cbn [st loop]. repeat split.
    + destruct choice; discriminate.
  - destruct sys as [s cx lp]. cbn [loop st] in *. subst lp.
    destruct ev as [fn | | choice]; cbn [step st ctx loop] in Hstep.
    + destruct (setGenerateOIDCTokenFn_returns fn s (proj1 (proj1 Hinv)))
        as [s1 [Hset _]].
      rewrite Hset in Hstep. discriminate.
    + discriminate.
    + destruct choice; discriminate.
  - destruct ev as [fn | | choice]; [| | exists choice; reflexivity].
    + destruct sys as [s cx lp]. cbn [step st ctx loop] in Hstep.
      destruct (setGenerateOIDCTokenFn_returns fn s (proj1 (proj1 Hinv)))
        as [s1 [Hset _]].
      rewrite Hset in Hstep. discriminate.
    + discriminate.
Qed.

(** X8: the goroutine of a cache returns only after its context has been
    cancelled, and from then on the cache is frozen: whatever is called
    afterwards, nothing panics, the cached result, the first-result latch,
    the log and the numbers of calls made to the clock, the token source
    and STS stay as they are.  In particular, when the context was
    cancelled before the first poll, every later [Retrieve] still returns
    the not-yet-initialized error, and a caller waiting for the first
    result is released only by its own context. *)
Theorem cache_is_frozen_after_run_returns
    (sys : System) (evs : list Event) :
  Reachable sys ->
  loop sys = Returned ->
  sigClosed (ctx sys) = true
  /\ match exec evs sys with
     | Ok sys' =>
         loop sys' = Returned
         /\ cached (cc (st sys')) = cached (cc (st sys))
         /\ gotFirstCredsOrErr (cc (st sys')) = gotFirstCredsOrErr (cc (st sys))
         /\ oidcCalls (st sys') = oidcCalls (st sys)
         /\ stsCalls (st sys') = stsCalls (st sys)
         /\ clockReads (st sys') = clockReads (st sys)
         /\ logged (st sys') = logged (st sys)
         /\ (sigClosed (gotFirstCredsOrErr (cc (st sys))) = false ->
             Retrieve (st sys')
             = Ok ((zeroCredentials, Some notYetInitialized), st sys')
             /\ forall cx, sigClosed cx = false ->
                           waitForFirstCredsOrErr cx (st sys') = Blocked)
     | Panic _ => False
     | Blocked => existsb (fun ev => match ev with EvRun _ => true | _ => false end)
                          evs = true
     end.
Proof.
  intros Hr Hret. split.
  { destruct Hr as [region [arn [k [sts [evs0 Hexec]]]]].
    refine (exec_returned_cancelled evs0 _ _ _ Hexec Hret). discriminate. }
  pose proof (cache_reachable_inv _ Hr) as Hinv. clear Hr.
  assert (Hgen : forall evs sys0, SysInv sys0 -> loop sys0 = Returned ->
    match exec evs sys0 with
    | Ok sys' =>
        SysInv sys' /\ loop sys' = Returned
        /\ cached (cc (st sys')) = cached (cc (st sys0))
        /\ gotFirstCredsOrErr (cc (st sys')) = gotFirstCredsOrErr (cc (st sys0))
        /\ oidcCalls (st sys') = oidcCalls (st sys0)
        /\ stsCalls (st sys') = stsCalls (st sys0)
        /\ clockReads (st sys') = clockReads (st sys0)
        /\ logged (st sys') = logged (st sys0)
    | Panic _ => False
    | Blocked => existsb (fun ev => match ev with EvRun _ => true | _ => false end)
                         evs = true
    end).
  { clear. induction evs as [| ev rest IH]; intros sys0 Hinv Hret.
    - cbn [exec]. split; [assumption |]. split; [assumption |]. repeat split.
    - cbn [exec existsb].
      pose proof (step_after_return ev sys0 Hinv Hret) as Hs.
      destruct (step ev sys0) as [sys1 | |].
      + destruct Hs as [Hinv1 [Hret1 [H1 [H2 [H3 [H4 [H5 H6]]]]]]].
        specialize (IH sys1 Hinv1 Hret1).
        destruct (exec rest sys1) as [sys' | |].
        * destruct IH as [Hinv' [Hret' [K1 [K2 [K3 [K4 [K5 K6]]]]]]].
          split; [exact Hinv' |]. split; [exact Hret' |].
          repeat split; congruence.
        * exact IH.
        * rewrite IH. apply orb_true_r.
      + exact Hs.
      + destruct Hs as [choice ->]. reflexivity. }
  specialize (Hgen evs sys Hinv Hret).
  destruct (exec evs sys) as [sys' | |]; [| exact Hgen | exact Hgen].
  destruct Hgen as [Hinv' [Hret' [K1 [K2 [K3 [K4 [K5 K6]]]]]]].
  do 7 (split; [assumption |]). intros Hopen. split.
  - destruct Hinv as [[_ [_ Hu]] _]. unfold untouchedUntilFirstResult in Hu.
    unfold Retrieve, bind, getCache, ret. rewrite K1, (Hu Hopen). reflexivity.
  - intros cx Hcx. rewrite waitForFirstCredsOrErr_spec, K2, Hopen, Hcx.
    reflexivity.
Qed.

Lemma cache_is_frozen_after_run_returns_witness :
  sigClosed (ctx {| st := {| cc := newCredentialsCache "eu-west-1" "arn"
                                     (clockAt 100) stsFails;
                             clockReads := 0; oidcCalls := 0; stsCalls := 0;
                             logged := [LogContextCanceledBeforeInitialized] |};
                    ctx := {| sigClosed := true |};
                    loop := Returned |}) = true.
Proof.
  refine (proj1 (cache_is_frozen_after_run_returns _
                   [EvSetGenerateOIDCTokenFn (Some tokenOk)] _ _)).
  - exists "eu-west-1"%string, "arn"%string, (clockAt 100), stsFails,
      [EvCancel; EvRun TakeDone].
    vm_compute. reflexivity.
  - reflexivity.
Defined.

(** A poll that finds a refresh due calls the token source; a nil function
    value makes that call panic. *)
Lemma due_poll_without_token_source (s : St) :
  generateOIDCTokenFn (cc s) = None ->
  cachedIsFresh s = false ->
  refreshIfNeeded s = Panic nilDereference.
Proof.
  intros Hfn Hfresh. unfold cachedIsFresh in Hfresh. unfold_go.
  destruct s as [[ra fn ini iniD [got] gotD held sts clk] r o t l].
  project. subst fn.
  crunch; try discriminate; reflexivity.
Qed.

(** X9: the token source of a cache can be set at any point of any
    schedule, any number of times: the call never panics (the
    [initialized] latch is closed once only), the function given last is
    the one the next refresh calls, and nothing else changes: the cached
    result, the first-result latch, the goroutine and the context are as
    before.  A nil function is accepted like any other, and then the
    goroutine panics at its next poll that finds a refresh due; the first
    poll always does. *)
Theorem token_source_can_be_set_at_any_time
    (sys : System) (fn : option GenerateOIDCTokenFn) :
  Reachable sys ->
  exists sys',
    step (EvSetGenerateOIDCTokenFn fn) sys = Ok sys'
    /\ generateOIDCTokenFn (cc (st sys')) = fn
    /\ sigClosed (initialized (cc (st sys'))) = true
    /\ cached (cc (st sys')) = cached (cc (st sys))
    /\ gotFirstCredsOrErr (cc (st sys')) = gotFirstCredsOrErr (cc (st sys))
    /\ loop sys' = loop sys
    /\ ctx sys' = ctx sys
    /\ oidcCalls (st sys') = oidcCalls (st sys)
    /\ stsCalls (st sys') = stsCalls (st sys)
    /\ (fn = None ->
        (loop sys = AwaitInitialized ->
         step (EvRun TakeInitialized) sys' = Panic nilDereference)
        /\ (loop sys = Polling -> cachedIsFresh (st sys') = false ->
            step (EvRun TakeTick) sys' = Panic nilDereference)).
Proof.
  intros Hr. pose proof (cache_reachable_inv _ Hr) as Hinv.
  destruct sys as [s cx lp].
  destruct (setGenerateOIDCTokenFn_returns fn s (proj1 (proj1 Hinv)))
    as [s1 [Hset [Hreads [Ho [Ht _]]]]].
  destruct (setGenerateOIDCTokenFn_effect _ _ _ _ (proj1 (proj1 Hinv)) Hset)
    as [Hfn [Hini [_ [Hgot [_ Hheld]]]]].
  exists {| st := s1; ctx := cx; loop := lp |}.
  cbn [step st ctx loop]. rewrite Hset.
  do 9 (split; [first [reflexivity | assumption] |]).
  intros ->. split.
  - intros ->. cbn [step run st ctx loop].
    unfold bind at 1. unfold getCache, recvReady. rewrite Hini.
    unfold bind. rewrite due_poll_without_token_source; auto.
    destruct Hinv as [[_ [_ Hu]] [Hloop _]].
    unfold loopConsistent in Hloop. cbn [loop st] in Hloop.
    unfold untouchedUntilFirstResult in Hu.
    unfold cachedIsFresh. rewrite Hheld, (Hu Hloop). reflexivity.
  - intros -> Hfresh. cbn [step run st ctx loop].
    unfold bind. rewrite due_poll_without_token_source; auto.
Qed.

Lemma token_source_can_be_set_at_any_time_witness :
  exists sys',
    step (EvSetGenerateOIDCTokenFn None)
         (newSystem "eu-west-1" "arn" (clockAt 100) stsFails) = Ok sys'
    /\ step (EvRun TakeInitialized) sys' = Panic nilDereference.
Proof.
  destruct (token_source_can_be_set_at_any_time
              (newSystem "eu-west-1" "arn" (clockAt 100) stsFails) None)
    as [sys' [Hstep [_ [_ [_ [_ [_ [_ [_ [_ Hnil]]]]]]]]]].
  - exists "eu-west-1"%string, "arn"%string, (clockAt 100), stsFails, [].
    reflexivity.
  - exists sys'. split; [exact Hstep |].
    exact (proj1 (Hnil eq_refl) eq_refl).
Defined.

(** X10: two polls in a row.  After a poll has stored newly issued
    credentials, the next poll reads the clock once and leaves everything
    else alone when those credentials have keys and expire more than 15
    minutes after that reading; otherwise (no keys, or an expiry within 15
    minutes of the reading) it asks the token source again: credentials
    issued with too short a life are fetched anew at every poll. *)
Theorem stored_credentials_decide_the_next_poll
    (s : St) (f : GenerateOIDCTokenFn) (c0 : Credentials) :
  latchesConsistent (cc s) ->
  generateOIDCTokenFn (cc s) = Some f ->
  cachedIsFresh s = false ->
  snd (f (oidcCalls s)) = None ->
  stsClient (cc s) (stsCalls s) (roleARN (cc s)) (fst (f (oidcCalls s)))
            (1 * Hour) (30 * Second) = (c0, None) ->
  exists s1,
    refreshIfNeeded s = Ok (tt, s1)
    /\ cachedIsFresh s1
       = HasKeys c0
         && Time_Before (Time_Add (clock (cc s) (clockReads s1)) (15 * Minute))
                        (Expires c0)
    /\ exists s2,
         refreshIfNeeded s1 = Ok (tt, s2)
         /\ if cachedIsFresh s1
            then s2 = {| cc := cc s1; clockReads := S (clockReads s1);
                         oidcCalls := oidcCalls s1; stsCalls := stsCalls s1;
                         logged := logged s1 |}
            else oidcCalls s2 = S (S (oidcCalls s)).
Proof.
  intros [_ Hl] Hfn Hfresh Htok Hsts.
  change (15 * Minute) with refreshBeforeExpirationPeriod.
  change (1 * Hour) with TokenLifetime in Hsts.
  change (30 * Second) with retrieveTimeout in Hsts.
  destruct s as [[ra fn ini iniD [got] gotD held sts clk] r o t l].
  cbn [cc generateOIDCTokenFn gotFirstCredsOrErr closeGotFirstCredsOrErrDone
       sigClosed clockReads oidcCalls stsCalls logged stsClient roleARN] in *.
  subst fn gotD.
  assert (Hs1 : exists r1 l1,
             refreshIfNeeded
               {| cc := {| roleARN := ra; generateOIDCTokenFn := Some f;
                           initialized := ini; closeInitializedDone := iniD;
                           gotFirstCredsOrErr := {| sigClosed := got |};
                           closeGotFirstCredsOrErrDone := got;
                           cached := held; stsClient := sts; clock := clk |};
                  clockReads := r; oidcCalls := o; stsCalls := t; logged := l |}
             = Ok (tt,
                   {| cc := {| roleARN := ra; generateOIDCTokenFn := Some f;
                               initialized := ini; closeInitializedDone := iniD;
                               gotFirstCredsOrErr := {| sigClosed := true |};
                               closeGotFirstCredsOrErrDone := true;
                               cached := {| creds := c0; err := None |};
                               stsClient := sts; clock := clk |};
                      clockReads := r1; oidcCalls := S o; stsCalls := S t;
                      logged := l1 |})).
  { unfold cachedIsFresh in Hfresh. unfold_go. project.
    destruct (isNil (err held) && HasKeys (creds held)) eqn:Hk; project;
      rewrite ?Hfresh; project; rewrite Htok; project; rewrite Hsts; project;
      destruct got; eexists _, _; reflexivity. }
  destruct Hs1 as [r1 [l1 ->]]. clear Hfresh.
  eexists. split; [reflexivity |].
  unfold cachedIsFresh. project. split; [reflexivity |].
  unfold_go. project.
  destruct (HasKeys c0); project;
    [destruct (Time_Before _ _); project |];
    try (eexists; split; reflexivity);
    crunch; eexists; split; reflexivity.
Qed.

Lemma stored_credentials_decide_the_next_poll_witness :
  let s := sampleState (Some tokenOk)
             {| creds := zeroCredentials; err := Some notYetInitialized |}
             false 0 (stsIssues (10 * Minute)) in
  exists s1 s2,
    refreshIfNeeded s = Ok (tt, s1)
    /\ refreshIfNeeded s1 = Ok (tt, s2)
    /\ cachedIsFresh s1 = false
    /\ oidcCalls s2 = 2%nat.
Proof.
  cbv zeta.
  destruct (stored_credentials_decide_the_next_poll
              (sampleState (Some tokenOk)
                 {| creds := zeroCredentials; err := Some notYetInitialized |}
                 false 0 (stsIssues (10 * Minute)))
              tokenOk (sampleCreds (10 * Minute))
              (conj eq_refl eq_refl) eq_refl eq_refl eq_refl eq_refl)
    as [s1 [Hpoll [Hfresh [s2 [Hnext Hs2]]]]].
  exists s1, s2.
  assert (Hf : cachedIsFresh s1 = false).
  { rewrite Hfresh. vm_compute in Hpoll. injection Hpoll as <-. reflexivity. }
  rewrite Hf in Hs2.
  repeat split; assumption.
Defined.

End CacheSchedules.

(** * Verification of the Configurator *)

Module ConfiguratorProofs.
Import ExternalCloudAudit CacheProofs CacheSchedules.

(** The cache a Configurator starts with is a cache at the start of a
    schedule, its context cancelled or not. *)
Lemma started_cache_reachable
    (region arn : string) (k : Clock) (clt : STSClient) (cx : SignalChan) :
  Reachable {| st := {| cc := newCredentialsCache region arn k clt;
                        clockReads := 0; oidcCalls := 0; stsCalls := 0;
                        logged := [] |};
               ctx := cx; loop := AwaitInitialized |}.
Proof.
  exists region, arn, k, clt.
  destruct cx as [[|]].
  - exists [EvCancel]. reflexivity.
  - exists []. reflexivity.
Qed.

(** What [newConfigurator] can return. *)
Lemma newConfigurator_result
    (d : Deps) (svc : Services) (cx : SignalChan)
    (sp : ExternalCloudAuditSpec) (optFns : list (Options -> Options))
    (r : option Configurator * option error) :
  newConfigurator d svc cx sp optFns = Ok r ->
  match r with
  | (Some c, e) =>
      e = None
      /\ (c = unusedConfigurator
          \/ exists arn k clt,
               c = {| spec := Some sp; isUsed := true;
                      credentialsCachePtr :=
                        Some {| st := {| cc := newCredentialsCache
                                                 (Region sp) arn k clt;
                                         clockReads := 0; oidcCalls := 0;
                                         stsCalls := 0; logged := [] |};
                                ctx := cx; loop := AwaitInitialized |} |})
  | (None, e) => e <> None
  end.
Proof.
  unfold newConfigurator. intros H.
  repeat match type of H with
         | context [match ?x with _ => _ end] => atomic x; destruct x eqn:?
         end;
    try discriminate; injection H as <-;
    try (split; [reflexivity |]);
    try (left; reflexivity);
    try (right; eexists _, _, _; reflexivity);
    try discriminate;
    try apply traceWrap_keeps_errors.
Qed.

(** X11: each of the three constructors, when it returns, returns either a
    Configurator and a nil error, or a nil Configurator and a non-nil
    error.  A Configurator returned reports [IsUsed] exactly when it holds
    a credentials cache.  When it is used, it has a spec, its provider
    returns the not-yet-initialized error until the first poll, setting the
    token source does not panic, and waiting for the first credentials
    blocks until the caller's context is done; when it is not used,
    [GetSpec] is nil and every method that reaches for the cache panics on
    the nil pointer. *)
Theorem constructors_return_a_configurator_or_an_error
    (d : Deps) (svc : Services) (cx : SignalChan)
    (optFns : list (Options -> Options))
    (r : option Configurator * option error) :
  NewConfigurator d svc cx optFns = Ok r
  \/ NewDraftConfigurator d svc cx optFns = Ok r
  \/ (exists sp, newConfigurator d svc cx sp optFns = Ok r) ->
  match r with
  | (Some c, e) =>
      e = None
      /\ if IsUsed c
         then exists sys,
                credentialsCachePtr c = Some sys
                /\ Reachable sys
                /\ GetSpec c <> None
                /\ providerRetrieve (CredentialsProvider c)
                   = Ok (zeroCredentials, Some notYetInitialized)
                /\ (forall fn, exists c', SetGenerateOIDCTokenFn fn c = Ok c')
                /\ (forall cx',
                      WaitForFirstCredentials cx' c
                      = if sigClosed cx' then Ok tt else Blocked)
         else GetSpec c = None
              /\ credentialsCachePtr c = None
              /\ (forall fn, SetGenerateOIDCTokenFn fn c = Panic nilDereference)
              /\ providerRetrieve (CredentialsProvider c) = Panic nilDereference
              /\ v1Adapter_RetrieveWithContext (CredentialsProviderSDKV1 c)
                 = Panic nilDereference
              /\ (forall cx', WaitForFirstCredentials cx' c = Panic nilDereference)
  | (None, e) => e <> None
  end.
Proof.
  assert (Hunused :
    None = (None : option error)
    /\ GetSpec unusedConfigurator = None
       /\ credentialsCachePtr unusedConfigurator = None
       /\ (forall fn, SetGenerateOIDCTokenFn fn unusedConfigurator
                      = Panic nilDereference)
       /\ providerRetrieve (CredentialsProvider unusedConfigurator)
          = Panic nilDereference
       /\ v1Adapter_RetrieveWithContext
            (CredentialsProviderSDKV1 unusedConfigurator) = Panic nilDereference
       /\ (forall cx', WaitForFirstCredentials cx' unusedConfigurator
                       = Panic nilDereference))
    by (repeat split).
  assert (Hnew : forall sp, newConfigurator d svc cx sp optFns = Ok r ->
    match r with
    | (Some c, e) =>
      e = None
      /\ if IsUsed c
         then exists sys,
                credentialsCachePtr c = Some sys
                /\ Reachable sys
                /\ GetSpec c <> None
                /\ providerRetrieve (CredentialsProvider c)
                   = Ok (zeroCredentials, Some notYetInitialized)
                /\ (forall fn, exists c', SetGenerateOIDCTokenFn fn c = Ok c')
                /\ (forall cx',
                      WaitForFirstCredentials cx' c
                      = if sigClosed cx' then Ok tt else Blocked)
         else GetSpec c = None
              /\ credentialsCachePtr c = None
              /\ (forall fn, SetGenerateOIDCTokenFn fn c = Panic nilDereference)
              /\ providerRetrieve (CredentialsProvider c) = Panic nilDereference
              /\ v1Adapter_RetrieveWithContext (CredentialsProviderSDKV1 c)
                 = Panic nilDereference
              /\ (forall cx', WaitForFirstCredentials cx' c = Panic nilDereference)
    | (None, e) => e <> None
    end).
  { intros sp H. apply newConfigurator_result in H.
    destruct r as [[c |] e]; [| exact H].
    destruct H as [-> [-> | [arn [k [clt ->]]]]]; [exact Hunused |].
    split; [reflexivity |]. cbn [IsUsed isUsed].
    eexists. split; [reflexivity |].
    split; [apply started_cache_reachable |].
    split; [discriminate |]. split; [reflexivity |].
    split.
    - intros fn. eexists. reflexivity.
    - intros [[|]]; reflexivity. }
  intros [H | [H | [sp H]]]; [| | exact (Hnew sp H)].
  - unfold NewConfigurator in H.
    destruct (GetClusterExternalCloudAudit svc) as [[a |] [e |]];
      try discriminate; try (exact (Hnew _ H));
      (destruct (traceIsNotFound d e); injection H as <-;
       [exact Hunused | apply traceWrap_keeps_errors]).
  - unfold NewDraftConfigurator in H.
    destruct (GetDraftExternalCloudAudit svc) as [[a |] [e |]];
      try discriminate; try (exact (Hnew _ H));
      injection H as <-; apply traceWrap_keeps_errors.
Qed.

Lemma constructors_return_a_configurator_or_an_error_witness :
  exists sys,
    Reachable sys
    /\ providerRetrieve (Some sys) = Ok (zeroCredentials, Some notYetInitialized).
Proof.
  pose proof (constructors_return_a_configurator_or_an_error
                (sampleDeps true false)
                (sampleServices (Some sampleIntegration, None))
                makeSignal
                [WithClock (clockAt 100); WithSTSClient stsFails]
                _ (or_introl eq_refl)) as P.
  cbv beta iota in P. destruct P as [_ [sys [Hptr [Hr [_ [Hret _]]]]]].
  exists sys. split; [exact Hr |].
  injection Hptr as <-. exact Hret.
Defined.

(** X12: [NewConfigurator] returns the unused Configurator in exactly two
    cases: the active configuration is reported not found, or it is found
    and the build is not Cloud or is billed by usage.  In both cases the
    integration service, the options and the context play no part.
    [NewDraftConfigurator] returns it in the second case only: a missing
    draft is an error, returned wrapped with a nil Configurator. *)
Theorem unused_configurator_characterised
    (d : Deps) (svc : Services) (cx : SignalChan)
    (optFns : list (Options -> Options)) :
  let gateClosed := negb (featuresCloud d) || featuresIsUsageBasedBilling d in
  (NewConfigurator d svc cx optFns = Ok (Some unusedConfigurator, None)
   <-> (exists e, snd (GetClusterExternalCloudAudit svc) = Some e
                  /\ traceIsNotFound d e = true)
       \/ ((exists active,
              GetClusterExternalCloudAudit svc = (Some active, None))
           /\ gateClosed = true))
  /\ (NewDraftConfigurator d svc cx optFns = Ok (Some unusedConfigurator, None)
      <-> (exists draft, GetDraftExternalCloudAudit svc = (Some draft, None))
          /\ gateClosed = true)
  /\ (forall e, snd (GetDraftExternalCloudAudit svc) = Some e ->
                NewDraftConfigurator d svc cx optFns
                = Ok (None, traceWrap (Some e))).
Proof.
  cbv zeta.
  assert (Hnew : forall sp,
    newConfigurator d svc cx sp optFns = Ok (Some unusedConfigurator, None)
    <-> negb (featuresCloud d) || featuresIsUsageBasedBilling d = true).
  { intros sp. unfold newConfigurator.
    destruct (negb (featuresCloud d) || featuresIsUsageBasedBilling d);
      [split; reflexivity |].
    split; [| discriminate]. intros H.
    repeat match type of H with
           | context [match ?x with _ => _ end] => atomic x; destruct x eqn:?
           end; discriminate. }
  unfold NewConfigurator, NewDraftConfigurator.
  split; [| split].
  - destruct (GetClusterExternalCloudAudit svc) as [[a |] [e |]]; cbn [snd].
    + destruct (traceIsNotFound d e) eqn:Hnf.
      * split; [intros _; left; exists e; auto | reflexivity].
      * split; [discriminate |].
        intros [[e' [He' Hnf']] | [[a' Ha'] _]]; [| discriminate].
        injection He' as <-. congruence.
    + rewrite Hnew. split.
      * intros H. right. split; [exists a; reflexivity | exact H].
      * intros [[e' [He' _]] | [_ H]]; [discriminate | exact H].
    + destruct (traceIsNotFound d e) eqn:Hnf.
      * split; [intros _; left; exists e; auto | reflexivity].
      * split; [discriminate |].
        intros [[e' [He' Hnf']] | [[a' Ha'] _]]; [| discriminate].
        injection He' as <-. congruence.
    + split; [discriminate |].
      intros [[e' [He' _]] | [[a' Ha'] _]]; discriminate.
  - destruct (GetDraftExternalCloudAudit svc) as [[a |] [e |]].
    + split; [discriminate | intros [[a' Ha'] _]; discriminate].
    + rewrite Hnew. split.
      * intros H. split; [exists a; reflexivity | exact H].
      * intros [_ H]. exact H.
    + split; [discriminate | intros [[a' Ha'] _]; discriminate].
    + split; [discriminate | intros [[a' Ha'] _]; discriminate].
  - intros e He.
    destruct (GetDraftExternalCloudAudit svc) as [[a |] [e' |]];
      cbn [snd] in He; try discriminate; injection He as ->; reflexivity.
Qed.

(** X13: on a Cloud build not billed by usage, with the integration found
    and of the AWS OIDC kind, [newConfigurator] builds the cache for the
    spec's region and the integration's role, not yet initialised, and
    starts its goroutine with the caller's context.  A clock and an STS
    client given as the last options are the ones the cache uses, whatever
    other options came before, and the AWS default configuration is then
    not consulted.  Without options the clock is the real clock and the STS
    client comes from the default configuration loaded for the spec's
    region, with FIPS endpoints exactly on a BoringCrypto build and ten
    retry attempts; when loading fails the error is returned wrapped and no
    Configurator is made. *)
Theorem newConfigurator_builds_cache_from_options
    (d : Deps) (svc : Services) (cx : SignalChan)
    (sp : ExternalCloudAuditSpec) (i : Integration)
    (a : AWSOIDCIntegrationSpecV1) (e0 : option error) :
  negb (featuresCloud d) || featuresIsUsageBasedBilling d = false ->
  GetIntegration svc (IntegrationName sp) = (Some i, e0) ->
  match e0 with Some e => traceIsNotFound d e = false | None => True end ->
  GetAWSOIDCIntegrationSpec i = Some a ->
  let used k clt :=
    Ok (Some {| spec := Some sp; isUsed := true;
                credentialsCachePtr :=
                  Some {| st := {| cc := newCredentialsCache
                                           (Region sp) (RoleARN a) k clt;
                                   clockReads := 0; oidcCalls := 0;
                                   stsCalls := 0; logged := [] |};
                          ctx := cx; loop := AwaitInitialized |} |},
        None) in
  (forall optFns k clt,
     newConfigurator d svc cx sp (optFns ++ [WithClock k; WithSTSClient clt])
     = used k clt)
  /\ newConfigurator d svc cx sp []
     = match loadDefaultConfig d (Region sp) (isBoringBinary d) 10 with
       | inl clt => used (newRealClock d) clt
       | inr e => Ok (None, traceWrap (Some e))
       end.
Proof.
  intros Hgate Hint Hnf Hspec. cbv zeta.
  assert (Hnf' : match e0 with
                 | Some e => traceIsNotFound d e
                 | None => false
                 end = false)
    by (destruct e0; auto).
  split.
  - intros optFns k clt. unfold newConfigurator.
    rewrite Hgate, Hint. cbn [fst snd]. rewrite Hnf', Hspec.
    rewrite fold_left_app. cbn [fold_left].
    unfold setDefaults, WithSTSClient, WithClock. cbn. reflexivity.
  - unfold newConfigurator.
    rewrite Hgate, Hint. cbn [fst snd]. rewrite Hnf', Hspec.
    cbn [fold_left]. unfold setDefaults. cbn [optClock optSTSClient].
    destruct (loadDefaultConfig d (Region sp) (isBoringBinary d) 10)
      as [clt | e].
    + reflexivity.
    + destruct e; reflexivity.
Qed.

Lemma newConfigurator_builds_cache_from_options_witness :
  newConfigurator (sampleDeps true false)
                  (sampleServices (Some sampleIntegration, None))
                  makeSignal sampleSpec []
  = Ok (None, Some (traceError (errorsNew "no AWS configuration"))).
Proof.
  exact (proj2 (newConfigurator_builds_cache_from_options
                  (sampleDeps true false)
                  (sampleServices (Some sampleIntegration, None))
                  makeSignal sampleSpec sampleIntegration
                  {| RoleARN := "arn:aws:iam::123456789012:role/audit" |}
                  None eq_refl eq_refl I eq_refl)).
Defined.

(** X14: how [newConfigurator] treats a failed integration lookup, on a
    Cloud build not billed by usage.  A not-found error gives a not-found
    error naming the integration, and no Configurator.  Any other error is
    dropped: the outcome is the one the same call gives when the lookup
    returns the same integration without an error, and when the lookup
    returned a nil integration along with the error the call panics on
    it. *)
Theorem integration_lookup_errors
    (d : Deps) (svc : Services) (cx : SignalChan)
    (sp : ExternalCloudAuditSpec) (optFns : list (Options -> Options))
    (i : option Integration) (e : error) :
  negb (featuresCloud d) || featuresIsUsageBasedBilling d = false ->
  GetIntegration svc (IntegrationName sp) = (i, Some e) ->
  newConfigurator d svc cx sp optFns
  = if traceIsNotFound d e
    then Ok (None, Some (traceNotFound d integrationNotFound
                                       (IntegrationName sp)))
    else match i with
         | None => Panic nilDereference
         | Some _ =>
             newConfigurator d
               {| GetClusterExternalCloudAudit :=
                    GetClusterExternalCloudAudit svc;
                  GetDraftExternalCloudAudit := GetDraftExternalCloudAudit svc;
                  GetIntegration := fun _ => (i, None) |}
               cx sp optFns
         end.
Proof.
  intros Hgate Hint. unfold newConfigurator.
  rewrite Hgate, Hint. cbn [fst snd GetIntegration].
  destruct (traceIsNotFound d e); [reflexivity |].
  destruct i; reflexivity.
Qed.

Lemma integration_lookup_errors_witness :
  newConfigurator (sampleDeps true false)
                  (sampleServices (None, Some (errorsNew "connection refused")))
                  makeSignal sampleSpec []
  = Panic nilDereference.
Proof.
  exact (integration_lookup_errors
           (sampleDeps true false)
           (sampleServices (None, Some (errorsNew "connection refused")))
           makeSignal sampleSpec [] None (errorsNew "connection refused")
           eq_refl eq_refl).
Defined.

End ConfiguratorProofs.

(** * Further properties of the interval *)

Module IntervalSchedules.
Import Interval IntervalProofs.

(** *** No panic, no deadlock *)

Lemma step_never_panics (ev : Event) (s : Sys) (msg : string) :
  Inv s -> step ev s <> Panic msg.
Proof.
  destruct s as [[cf [cap bf cl] [rs] [fs] once [dn]]
                 [stt [tc arm tC] tk snd] tms jc h].
  unfold Inv, chanInv, timerInv, parkedInv, doneInv, countInv.
  fields.
  intros [_ [_ [_ [[Honce _] _]]]] Hstep. subst once.
  destruct ev; unfold_interval; fields;
    repeat split_match; try discriminate; congruence.
Qed.

(** X1: no schedule of timer expiries, [Reset], [FireNow], [Stop] and
    receive calls makes an interval built by [New] panic (in particular
    [done] is never closed twice); and whenever [run] is at its [select],
    every ready arm runs to completion (the drain of the timer channel
    never blocks) and, when no arm is ready, [run] parks. *)
Theorem interval_never_panics_nor_sticks
    (c : Config) (w : Times) (n : nat) (s0 : Sys) (evs : list Event) :
  New c w n = Ok s0 ->
  (forall msg, exec evs s0 <> Panic msg)
  /\ (forall s,
         exec evs s0 = Ok s ->
         status (task s) = Running ->
         (forall a, ready s a = true -> exists s', step (EvSelect a) s = Ok s')
         /\ (noneReady s = true -> exists s', step EvPark s = Ok s')).
Proof.
  intros Hnew. pose proof (proj1 (New_inv _ _ _ _ Hnew)) as Hinv0. clear Hnew.
  split.
  - revert s0 Hinv0. induction evs as [| ev rest IH]; intros s0 Hinv0 msg.
    + discriminate.
    + cbn. destruct (step ev s0) as [s1 | m |] eqn:Hstep.
      * exact (IH _ (interval_step_inv _ _ _ Hinv0 Hstep) msg).
      * exfalso. exact (step_never_panics _ _ _ Hinv0 Hstep).
      * discriminate.
  - intros s Hexec Hrun.
    pose proof (proj1 (interval_exec_inv _ _ _ Hinv0 Hexec)) as Hinv.
    clear Hexec Hinv0.
    destruct s as [[cf [cap bf cl] [rs] [fs] once [dn]]
                   [stt [tc arm tC] tk snd] tms jc h].
    unfold Inv, chanInv, timerInv, parkedInv, doneInv, countInv in Hinv.
    fields. subst stt.
    destruct Hinv as [_ [Htimer _]].
    split.
    + intros a Hready. cbn [step status task]. unfold run. rewrite Hready.
      unfold_interval; fields.
      destruct a; fields; try (eexists; reflexivity).
      * destruct tC; [discriminate Hready | eexists; reflexivity].
      * destruct Htimer as [[Harm ->] | [-> [t ->]]]; fields.
        -- destruct arm; [| congruence]. fields. eexists; reflexivity.
        -- eexists; reflexivity.
      * destruct Htimer as [[Harm ->] | [-> [t ->]]]; fields.
        -- destruct arm; [| congruence]. fields. eexists; reflexivity.
        -- eexists; reflexivity.
    + intros Hnone. cbn [step status task]. rewrite Hnone.
      eexists; reflexivity.
Qed.

Lemma interval_never_panics_nor_sticks_witness :
  exists s0,
    New sampleConfig sampleTimes 0 = Ok s0
    /\ exists s,
        exec [EvClock laterTimes; EvExpire; EvResetPark] s0 = Ok s
        /\ exists s', step (EvSelect CaseReset) s = Ok s'.
Proof.
  eexists. split; [vm_compute; reflexivity |].
  eexists. split; [vm_compute; reflexivity |].
  destruct (interval_never_panics_nor_sticks
              sampleConfig sampleTimes 0 _
              [EvClock laterTimes; EvExpire; EvResetPark]
              ltac:(vm_compute; reflexivity)) as [_ Hmoves].
  destruct (Hmoves _ ltac:(vm_compute; reflexivity) ltac:(vm_compute; reflexivity))
    as [Harm _].
  apply (Harm CaseReset). vm_compute. reflexivity.
Defined.

(** *** The output channel is a queue *)


Lemma sentValues_snoc (h : list Obs) (o : Obs) :
  sentValues (h ++ [o])
  = sentValues h ++ match o with Sent t => [t] | _ => [] end.
Proof.
  unfold sentValues. rewrite flat_map_app. cbn. rewrite app_nil_r.
  reflexivity.
Qed.

Lemma receivedValues_snoc (h : list Obs) (o : Obs) :
  receivedValues (h ++ [o])
  = receivedValues h ++ match o with Received t => [t] | _ => [] end.
Proof.
  unfold receivedValues. rewrite flat_map_app. cbn. rewrite app_nil_r.
  reflexivity.
Qed.

Lemma step_fifo (ev : Event) (s s' : Sys) :
  Fifo s -> step ev s = Ok s' -> Fifo s'.
Proof.
  destruct s as [[cf [cap bf cl] [rs] [fs] once [dn]]
                 [stt [tc arm tC] tk snd] tms jc h].
  unfold Fifo. fields. intros Hfifo Hstep.
  destruct ev; unfold_interval; fields;
    repeat split_match; try discriminate; injection Hstep as <-; fields;
    rewrite ?sentValues_snoc, ?receivedValues_snoc; cbn [app];
    rewrite ?app_nil_r; subst; rewrite ?Hfifo, <- ?app_assoc; cbn [app];
    try reflexivity.
Qed.

(** *** Timestamps in order *)









Lemma New_fifo (c : Config) (w : Times) (n : nat) (s : Sys) :
  New c w n = Ok s -> Fifo s.
Proof.
  unfold New. destruct (Duration c <=? 0); [discriminate |].
  intros H. injection H as <-. reflexivity.
Qed.

Lemma exec_fifo (evs : list Event) (s s' : Sys) :
  Fifo s -> exec evs s = Ok s' -> Fifo s'.
Proof.
  revert s. induction evs as [| ev rest IH]; intros s Hf Hexec.
  - injection Hexec as <-. exact Hf.
  - cbn in Hexec. destruct (step ev s) as [s1 | |] eqn:Hstep; try discriminate.
    exact (IH _ (step_fifo _ _ _ Hf Hstep) Hexec).
Qed.


(** X2: the output channel is a queue on every schedule: the timestamps
    sent so far are exactly those received so far, in the same order,
    followed by the one still buffered; a consumer never receives a
    timestamp that was not sent, nor out of the order of sending. *)
Theorem output_channel_is_a_queue
    (c : Config) (w : Times) (n : nat) (s0 : Sys) (evs : list Event) (s : Sys) :
  New c w n = Ok s0 ->
  exec evs s0 = Ok s ->
  sentValues (hist s) = receivedValues (hist s) ++ buf (Next s)
  /\ (List.length (receivedValues (hist s)) <= List.length (sentValues (hist s)))%nat
  /\ firstn (List.length (receivedValues (hist s))) (sentValues (hist s))
     = receivedValues (hist s).
Proof.
  intros Hnew Hexec.
  pose proof (exec_fifo _ _ _ (New_fifo _ _ _ _ Hnew) Hexec) as Hf.
  unfold Fifo in Hf. unfold Next. rewrite Hf.
  split; [reflexivity |]. split.
  - rewrite length_app. lia.
  - rewrite firstn_app, Nat.sub_diag, firstn_all. cbn. apply app_nil_r.
Qed.

Lemma output_channel_is_a_queue_witness :
  exists s0,
    New sampleConfig sampleTimes 0 = Ok s0
    /\ exists s,
        exec [EvClock laterTimes; EvExpire; EvSelect CaseTimer;
              EvSelect CaseSend; EvRecv; EvFireNowPark; EvSelect CaseFire;
              EvSelect CaseSend] s0 = Ok s
        /\ sentValues (hist s) = receivedValues (hist s) ++ buf (Next s)
        /\ receivedValues (hist s) = [1000 + 2 * Second]
        /\ buf (Next s) = [5000 + 2 * Second].
Proof.
  eexists. split; [vm_compute; reflexivity |].
  eexists. split; [vm_compute; reflexivity |].
  split; [| split; vm_compute; reflexivity].
  exact (proj1 (output_channel_is_a_queue sampleConfig sampleTimes 0 _
                  [EvClock laterTimes; EvExpire; EvSelect CaseTimer;
                   EvSelect CaseSend; EvRecv; EvFireNowPark; EvSelect CaseFire;
                   EvSelect CaseSend] _
                  ltac:(vm_compute; reflexivity)
                  ltac:(vm_compute; reflexivity))).
Defined.



(** *** The interval that never fires *)

Lemma step_idle (ev : Event) (s s' : Sys) :
  Idle s -> step ev s = Ok s' -> Idle s'.
Proof.
  destruct s as [[cf [cap bf cl] [rs] [fs] once [dn]]
                 [stt [tc arm tC] tk snd] tms jc h].
  unfold Idle. fields.
  intros [-> [-> [-> [-> [-> Hsenders]]]]] Hstep.
  destruct ev; unfold_interval; fields;
    repeat split_match; try discriminate; injection Hstep as <-; fields;
    reflect_hyps; subst;
    repeat split; auto; intros; try discriminate;
    solve [intuition (try discriminate; try congruence)].
Qed.

Lemma step_idle_never_panics (ev : Event) (s : Sys) (msg : string) :
  Idle s -> step ev s <> Panic msg.
Proof.
  destruct s as [[cf [cap bf cl] [rs] [fs] once [dn]]
                 [stt [tc arm tC] tk snd] tms jc h].
  unfold Idle. fields.
  intros [-> [-> [-> [-> [-> Hsenders]]]]] Hstep.
  destruct ev; unfold_interval; fields;
    repeat split_match; try discriminate; congruence.
Qed.


Lemma exec_idle (evs : list Event) (s s' : Sys) :
  Idle s ->
  exec evs s = Ok s' ->
  Idle s'
  /\ sigClosed (done (ival s'))
     = sigClosed (done (ival s)) || existsb isStop evs.
Proof.
  revert s. induction evs as [| ev rest IH]; intros s Hidle Hexec.
  - injection Hexec as <-. cbn. rewrite orb_false_r. auto.
  - cbn in Hexec. destruct (step ev s) as [s1 | |] eqn:Hstep; try discriminate.
    destruct (IH _ (step_idle _ _ _ Hidle Hstep) Hexec) as [Hidle' Hdone'].
    split; [exact Hidle' |]. rewrite Hdone'. cbn [existsb].
    rewrite orb_assoc. f_equal.
    clear - Hidle Hstep.
    destruct s as [[cf [cap bf cl] [rs] [fs] once [dn]]
                   [stt [tc arm tC] tk snd] tms jc h].
    unfold Idle in Hidle. fields.
    destruct Hidle as [-> [-> [-> [-> [-> _]]]]].
    destruct ev; unfold_interval; fields;
      repeat split_match; try discriminate; injection Hstep as <-; fields;
      cbn [isStop]; rewrite ?orb_false_r, ?orb_true_r; try reflexivity;
      congruence.
Qed.

(** X4: an interval made by [NewNoop] never fires: on every schedule
    nothing is ever staged, sent or buffered, so a receive from [Next()]
    always blocks, and no call panics.  [Reset] and [FireNow] on it cannot
    complete their send (nobody receives): as long as [Stop] has not been
    called they can only park, and once it has been called they return at
    once through [done]. *)
Theorem noop_interval_never_fires
    (w : Times) (n : nat) (evs : list Event) :
  (forall msg, exec evs (NewNoop w n) <> Panic msg)
  /\ (forall s,
         exec evs (NewNoop w n) = Ok s ->
         hist s = []
         /\ buf (Next s) = []
         /\ receive s = Blocked
         /\ Reset ViaSend s = Blocked
         /\ FireNow ViaSend s = Blocked
         /\ (existsb isStop evs = false ->
             Reset ViaDone s = Blocked
             /\ FireNow ViaDone s = Blocked
             /\ callerMustPark s = true)
         /\ (existsb isStop evs = true ->
             Reset ViaDone s = Ok s
             /\ FireNow ViaDone s = Ok s
             /\ callerMustPark s = false)).
Proof.
  assert (Hidle0 : Idle (NewNoop w n)).
  { unfold Idle. cbn. repeat split; auto; discriminate. }
  split.
  - generalize (NewNoop w n) Hidle0. clear Hidle0.
    induction evs as [| ev rest IH]; intros s Hidle msg.
    + discriminate.
    + cbn. destruct (step ev s) as [s1 | m |] eqn:Hstep.
      * exact (IH _ (step_idle _ _ _ Hidle Hstep) msg).
      * exfalso. exact (step_idle_never_panics _ _ _ Hidle Hstep).
      * discriminate.
  - intros s Hexec.
    destruct (exec_idle _ _ _ Hidle0 Hexec) as [Hidle Hdone].
    cbn [NewNoop ival done sigClosed makeSignal orb] in Hdone.
    destruct s as [[cf [cap bf cl] [rs] [fs] once [dn]]
                   [stt [tc arm tC] tk snd] tms jc h].
    unfold Idle in Hidle. fields.
    destruct Hidle as [-> [-> [-> [-> [-> _]]]]]. subst dn.
    unfold_interval; fields.
    clear Hexec. destruct (existsb isStop evs);
      repeat split; intros; try discriminate; reflexivity.
Qed.

Lemma noop_interval_never_fires_witness :
  exists s,
    exec [EvResetPark; EvFireNowPark; EvClock laterTimes; EvStop; EvStop]
         (NewNoop sampleTimes 0) = Ok s
    /\ hist s = []
    /\ Reset ViaDone s = Ok s.
Proof.
  eexists. split; [vm_compute; reflexivity |].
  destruct (proj2 (noop_interval_never_fires sampleTimes 0
                     [EvResetPark; EvFireNowPark; EvClock laterTimes; EvStop;
                      EvStop])
                  _ ltac:(vm_compute; reflexivity))
    as [Hhist [_ [_ [_ [_ [_ Hstopped]]]]]].
  split; [exact Hhist |].
  exact (proj1 (Hstopped eq_refl)).
Defined.

Lemma step_dropped (ev : Event) (s s' : Sys) :
  Inv s -> step ev s = Ok s' ->
  (dropped s' = dropped s /\ ~ overwrites s s')
  \/ (dropped s' = S (dropped s) /\ overwrites s s').
Proof.
  destruct s as [[cf [cap bf cl] [rs] [fs] once [dn]]
                 [stt [tc arm tC] tk snd] tms jc h].
  unfold Inv, chanInv, timerInv, parkedInv, doneInv, countInv, dropped,
    overwrites.
  fields.
  intros [[Hcap [Hlen Hcl]]
            [Htimer [Hparked [[Honce [Hsenders Hexit]] [Hcount Hbuf]]]]] Hstep.
  subst cap cl once.
  destruct bf as [| b0 [| b1 bf]]; [ | | cbn in Hlen; lia]; fields.
  all: destruct snd; fields.
  all: destruct ev; unfold_interval; fields.
  all: repeat split_match; try discriminate; try (injection Hstep as <-);
    fields; rewrite ?count_snoc in *; fields; reflect_hyps; subst; fields;
    solve [ left; split; [lia | intros [? [? | [? ?]]]; (congruence || lia)]
          | right; split; [lia | split; [reflexivity |];
                                 ((left; lia) || (right; split; [reflexivity | lia]))] ].
Qed.

(** The arms of [run] that stage or clear a tick. *)
Lemma pending_tick_is_replaced (ev : Event) (s s' : Sys) :
  Inv s ->
  sending (task s) = true ->
  In ev [EvSelect CaseTimer; EvSelect CaseFire; EvFireNow ViaSend;
         EvSelect CaseReset; EvReset ViaSend] ->
  step ev s = Ok s' ->
  dropped s' = S (dropped s)
  /\ count isSent (hist s') = count isSent (hist s)
  /\ sending (task s')
     = match ev with
       | EvSelect CaseReset | EvReset ViaSend => false
       | _ => true
       end.
Proof.
  destruct s as [[cf [cap bf cl] [rs] [fs] once [dn]]
                 [stt [tc arm tC] tk snd] tms jc h].
  unfold Inv, chanInv, timerInv, parkedInv, doneInv, countInv, dropped.
  fields.
  intros [[Hcap [Hlen Hcl]]
            [Htimer [Hparked [[Honce [Hsenders Hexit]] [Hcount Hbuf]]]]]
         -> Hev Hstep.
  subst cap cl once. fields.
  cbn [In] in Hev.
  destruct Hev as [<- | [<- | [<- | [<- | [<- | []]]]]];
    unfold_interval; fields;
    repeat split_match; try discriminate; injection Hstep as <-;
    fields; rewrite ?count_snoc in *; fields;
    (split; [lia | split; [lia || reflexivity | reflexivity]]).
Qed.

(** X15: every tick that [run] stages is handed to the output channel at
    most once, is still waiting to be sent, or was dropped; a tick is
    dropped exactly when, while it waits to be sent, [run] stages another
    one in its place or clears it.  So triggers do not queue up behind a
    full output channel: a timer tick or a [FireNow] observed while a tick
    is waiting replaces it, and a [Reset] observed then discards it. *)
Theorem staged_ticks_are_sent_waiting_or_dropped
    (c : Config) (w : Times) (n : nat) (s0 s : Sys) (evs : list Event) :
  New c w n = Ok s0 ->
  exec evs s0 = Ok s ->
  count isStaged (hist s)
  = (count isSent (hist s) + b2n (sending (task s)) + dropped s)%nat
  /\ (forall ev s',
        step ev s = Ok s' ->
        (dropped s' = dropped s /\ ~ overwrites s s')
        \/ (dropped s' = S (dropped s) /\ overwrites s s'))
  /\ (forall ev s',
        sending (task s) = true ->
        In ev [EvSelect CaseTimer; EvSelect CaseFire; EvFireNow ViaSend;
               EvSelect CaseReset; EvReset ViaSend] ->
        step ev s = Ok s' ->
        dropped s' = S (dropped s)
        /\ count isSent (hist s') = count isSent (hist s)
        /\ sending (task s')
           = match ev with
             | EvSelect CaseReset | EvReset ViaSend => false
             | _ => true
             end).
Proof.
  intros Hnew Hexec.
  destruct (interval_exec_inv _ _ _ (proj1 (New_inv _ _ _ _ Hnew)) Hexec)
    as [Hinv _].
  split; [| split].
  - destruct Hinv as [_ [_ [_ [_ [Hcount _]]]]]. unfold dropped. lia.
  - intros ev s'. apply step_dropped. exact Hinv.
  - intros ev s'. apply pending_tick_is_replaced. exact Hinv.
Qed.

Lemma staged_ticks_are_sent_waiting_or_dropped_witness :
  exists s,
    exec [EvFireNowPark; EvFireNowPark; EvSelect CaseFire; EvSelect CaseFire]
         (match New sampleConfig sampleTimes 0 with
          | Ok s0 => s0
          | _ => NewNoop sampleTimes 0
          end) = Ok s
    /\ count isStaged (hist s) = 2%nat
    /\ count isStaged (hist s)
       = (count isSent (hist s) + b2n (sending (task s)) + dropped s)%nat.
Proof.
  eexists. split; [vm_compute; reflexivity |].
  split; [vm_compute; reflexivity |].
  exact (proj1 (staged_ticks_are_sent_waiting_or_dropped
                  sampleConfig sampleTimes 0 _ _
                  [EvFireNowPark; EvFireNowPark; EvSelect CaseFire;
                   EvSelect CaseFire]
                  ltac:(vm_compute; reflexivity)
                  ltac:(vm_compute; reflexivity))).
Defined.

End IntervalSchedules.
